(** * wlog: a shallow embedding of [src/wlog.ts] and its properties

    The development has three layers.

    - [Js], [Date], [Json], [Runtime], [Sqlite]: the host the program
      runs on.  Effects are threaded through a state-and-exception
      monad over a [World] that holds the file system, the table
      [logs], the console and the number of clock reads; the readings
      of the clock and the rendering of the locale are parameters
      ([Host]), and so is which host calls fail ([Faults]).
    - [Wlog]: the class [Wlog] of [src/wlog.ts], function by function.
    - [Vocabulary] and the theorems.

    What the host model leaves out: a string is a byte string, the
    UTF-8 of its text (a file holds what was written, a read returns
    what the file holds, upper-casing touches ASCII letters only); a
    number is a double without fraction, [NaN] or an infinity; a JSON
    value keeps the text of its numbers and the members of its objects
    as they were read; the database understands the one INSERT and the
    SELECT statements the query builder produces, and reports any
    other statement as an error; its own files ([wlog.db] and what it
    keeps next to it) are not among the files of the world, the table
    stands for them. *)

From Stdlib Require Import ZArith Ascii String List Lia Sorted.
From stdpp Require Import base gmap strings list.

Local Open Scope Z_scope.

(* Let [simpl] compute the append of a string that starts with a literal. *)
#[local] Arguments String.append !_ _ : simpl nomatch.

(* ================================================================= *)
(** * JavaScript strings and numbers *)

Module Js.

(** Line feed, the character written [\n] in the source. *)
Definition LF : ascii := "010"%char.
Definition nl : string := String LF EmptyString.

(** The double quote character. *)
Definition DQ : ascii := "034"%char.

(** A string is truthy when it is not empty. *)
Definition truthy (s : string) : bool :=
  match s with
  | EmptyString => false
  | String _ _ => true
  end.

(** [a || b] on strings. *)
Definition or_else (a : option string) (b : string) : string :=
  match a with
  | Some s => if truthy s then s else b
  | None => b
  end.

(** [a || undefined] on strings. *)
Definition or_undefined (a : option string) : option string :=
  match a with
  | Some s => if truthy s then Some s else None
  | None => None
  end.

(** Numbers as the program meets them: finite numbers without a
    fraction, [NaN], and the two infinities.  A number is a double, so
    [Num z] is one of the program's numbers when a double holds [z]
    exactly ([nearest_double z = Num z]): every integer up to [2^53] in
    magnitude, and beyond that the integers a 53-bit significand
    reaches. *)
Inductive number := Num (z : Z) | NaN | Infinity (negative : bool).

Definition truthy_number (n : number) : bool :=
  match n with
  | Num z => negb (z =? 0)
  | NaN => false
  | Infinity _ => true
  end.

(** The Number value for an integer: the nearest double, ties going to
    the even significand, and an infinity from [2^1024 - 2^970] on. *)
Definition nearest_double (z : Z) : number :=
  let a := Z.abs z in
  if a <? 2 ^ 53 then Num z
  else
    let e := Z.log2 a - 52 in
    let q := Z.shiftr a e in
    let r := a - Z.shiftl q e in
    let half := Z.shiftl 1 (e - 1) in
    let q := if (half <? r) || ((r =? half) && Z.odd q) then q + 1 else q in
    let v := Z.shiftl q e in
    if 2 ^ 1024 <=? v then Infinity (z <? 0) else Num (Z.sgn z * v).

(** Truthiness of an optional field ([undefined] is falsy). *)
Definition present_string (o : option string) : bool :=
  match o with Some s => truthy s | None => false end.

Definition present_number (o : option number) : bool :=
  match o with Some n => truthy_number n | None => false end.

(** [Array.prototype.join]. *)
Fixpoint join (sep : string) (l : list string) : string :=
  match l with
  | [] => EmptyString
  | [x] => x
  | x :: rest => x +:+ sep +:+ join sep rest
  end.

(** [String.prototype.toUpperCase], on the ASCII letters. *)
Definition upper_char (c : ascii) : ascii :=
  let n := nat_of_ascii c in
  if ((97 <=? n)%nat && (n <=? 122)%nat)%bool then ascii_of_nat (n - 32) else c.

Fixpoint toUpperCase (s : string) : string :=
  match s with
  | EmptyString => EmptyString
  | String c r => String (upper_char c) (toUpperCase r)
  end.

(** Value of a digit in a radix, if it is one. *)
Definition digit_value (radix : Z) (c : ascii) : option Z :=
  let n := Z.of_nat (nat_of_ascii c) in
  let v := if (48 <=? n) && (n <=? 57) then Some (n - 48)
           else if (97 <=? n) && (n <=? 122) then Some (n - 87)
           else if (65 <=? n) && (n <=? 90) then Some (n - 55)
           else None in
  match v with
  | Some d => if d <? radix then Some d else None
  | None => None
  end.

(** Longest prefix of digits, as a number; [None] when there is none. *)
Fixpoint parse_digits (radix : Z) (acc : option Z) (s : string) : option Z :=
  match s with
  | EmptyString => acc
  | String c r =>
      match digit_value radix c with
      | Some d => parse_digits radix (Some (match acc with Some a => a * radix + d | None => d end)) r
      | None => acc
      end
  end.

(** White space and line terminators.  A string holds its text in
    UTF-8, so a character beyond ASCII is two or three bytes.

    One byte: TAB, LF, VT, FF, CR and the space. *)
Definition is_space (c : ascii) : bool :=
  let n := nat_of_ascii c in
  ((n =? 32) || (9 <=? n) && (n <=? 13))%nat%bool.

(** Two bytes: U+00A0, the no-break space. *)
Definition is_space2 (c d : ascii) : bool :=
  ((nat_of_ascii c =? 194) && (nat_of_ascii d =? 160))%nat%bool.

(** Three bytes: U+1680; U+2000 to U+200A, the line and paragraph
    separators U+2028 and U+2029, U+202F; U+205F; U+3000; and U+FEFF,
    the byte order mark. *)
Definition is_space3 (c d e : ascii) : bool :=
  let '(c, d, e) := (nat_of_ascii c, nat_of_ascii d, nat_of_ascii e) in
  ((c =? 225) && (d =? 154) && (e =? 128)
   || (c =? 226) && (d =? 128)
      && ((128 <=? e) && (e <=? 138) || (e =? 168) || (e =? 169) || (e =? 175))
   || (c =? 226) && (d =? 129) && (e =? 159)
   || (c =? 227) && (d =? 128) && (e =? 128)
   || (c =? 239) && (d =? 187) && (e =? 191))%nat%bool.

(** What is left of a string after its leading white space. *)
Fixpoint trim_start (s : string) : string :=
  match s with
  | String c r =>
      if is_space c then trim_start r
      else
        match r with
        | String d r1 =>
            if is_space2 c d then trim_start r1
            else
              match r1 with
              | String e r2 => if is_space3 c d e then trim_start r2 else s
              | EmptyString => s
              end
        | EmptyString => s
        end
  | EmptyString => EmptyString
  end.

(** [parseInt(s)] with no radix argument: leading white space, an
    optional sign, an optional [0x] prefix, then the longest run of
    digits, whose value is rounded to a double; [NaN] when there is no
    digit.  (Past the 20th significant decimal digit an implementation
    may read the digits as zeros; the value is beyond [2^63] either
    way.) *)
Definition parseInt (s : string) : number :=
  let s := trim_start s in
  let '(sign, s) :=
    match s with
    | String "-"%char r => (-1, r)
    | String "+"%char r => (1, r)
    | _ => (1, s)
    end in
  let '(radix, s) :=
    match s with
    | String "0"%char (String "x"%char r) => (16, r)
    | String "0"%char (String "X"%char r) => (16, r)
    | _ => (10, s)
    end in
  match parse_digits radix None s with
  | Some n => nearest_double (sign * n)
  | None => NaN
  end.

End Js.

(* ================================================================= *)
(** * Date *)

Module Date.

(** A [Date] object is its time value: milliseconds since the epoch. *)
Definition t := Z.

Definition digit_char (d : Z) : ascii := ascii_of_nat (48 + Z.to_nat (d mod 10)).

(** The [n] low decimal digits of [z], most significant first. *)
Fixpoint pad (n : nat) (z : Z) : string :=
  match n with
  | O => EmptyString
  | S k => pad k (z / 10) +:+ String (digit_char z) EmptyString
  end.

(** Decimal rendering of a natural number, without padding. *)
Fixpoint decimal_fuel (fuel : nat) (z : Z) : string :=
  match fuel with
  | O => EmptyString
  | S k => (if z <? 10 then EmptyString else decimal_fuel k (z / 10))
             +:+ String (digit_char z) EmptyString
  end.

Definition decimal (z : Z) : string := decimal_fuel (S (Z.to_nat (Z.log2 z))) z.

Definition msPerDay : Z := 86400000.

Definition day (d : t) : Z := d / msPerDay.
Definition hours (d : t) : Z := (d mod msPerDay) / 3600000.
Definition minutes (d : t) : Z := (d / 60000) mod 60.
Definition seconds (d : t) : Z := (d / 1000) mod 60.
Definition milliseconds (d : t) : Z := d mod 1000.

(** Year, month and day of the month of a day number (proleptic
    Gregorian calendar). *)
Definition civil (days : Z) : Z * Z * Z :=
  let z := days + 719468 in
  let era := z / 146097 in
  let doe := z - era * 146097 in
  let yoe := (doe - doe / 1460 + doe / 36524 - doe / 146096) / 365 in
  let doy := doe - (365 * yoe + yoe / 4 - yoe / 100) in
  let mp := (5 * doy + 2) / 153 in
  let d := doy - (153 * mp + 2) / 5 + 1 in
  let m := if mp <? 10 then mp + 3 else mp - 9 in
  let y := yoe + era * 400 + (if m <=? 2 then 1 else 0) in
  (y, m, d).

Definition year_string (y : Z) : string :=
  if (0 <=? y) && (y <=? 9999) then pad 4 y
  else if y <? 0 then "-" +:+ pad 6 (- y)
  else "+" +:+ pad 6 y.

(** The time of day, [:SS] included, shared by both renderings. *)
Definition clock_string (h : string) (d : t) : string :=
  h +:+ ":" +:+ pad 2 (minutes d) +:+ ":" +:+ pad 2 (seconds d).

(** [Date.prototype.toISOString]. *)
Definition toISOString (d : t) : string :=
  let '(y, m, dd) := civil (day d) in
  year_string y +:+ "-" +:+ pad 2 m +:+ "-" +:+ pad 2 dd +:+ "T"
    +:+ clock_string (pad 2 (hours d)) d +:+ "." +:+ pad 3 (milliseconds d) +:+ "Z".

(** [Date.prototype.toLocaleString] as an en-US host in the UTC time
    zone renders it: [M/D/YYYY, h:mm:ss AM]. *)
Definition toLocaleString_enUS (d : t) : string :=
  let '(y, m, dd) := civil (day d) in
  let h := hours d in
  let h12 := if h mod 12 =? 0 then 12 else h mod 12 in
  decimal m +:+ "/" +:+ decimal dd +:+ "/" +:+ decimal y +:+ ", "
    +:+ clock_string (decimal h12) d +:+ (if h <? 12 then " AM" else " PM").

End Date.

(* ================================================================= *)
(** * JSON *)

Module Json.
Import Js.

(** JSON values.  A number keeps its lexeme (the program never reads
    one); an object keeps its members in source order. *)
#[warnings="-register-all"] Inductive value :=
| JNull
| JBool (b : bool)
| JNumber (lexeme : string)
| JString (s : string)
| JArray (items : list value)
| JObject (members : list (string * value)).

(** ** [JSON.stringify(v, null, 2)] *)

Definition hex_digit (n : nat) : ascii :=
  if (n <? 10)%nat then ascii_of_nat (48 + n) else ascii_of_nat (87 + n).

(** One character inside a quoted string. *)
Definition quote_char (c : ascii) : string :=
  match c with
  | "034"%char => String "\" (String DQ EmptyString)
  | "\"%char => "\\"
  | "008"%char => "\b"
  | "009"%char => "\t"
  | "010"%char => "\n"
  | "012"%char => "\f"
  | "013"%char => "\r"
  | _ =>
      let n := nat_of_ascii c in
      if (n <? 32)%nat
      then "\u00" +:+ String (hex_digit (n / 16)) (String (hex_digit (n mod 16)) EmptyString)
      else String c EmptyString
  end.

Fixpoint quote_chars (s : string) : string :=
  match s with
  | EmptyString => EmptyString
  | String c r => quote_char c +:+ quote_chars r
  end.

Definition quote (s : string) : string :=
  String DQ (quote_chars s +:+ String DQ EmptyString).

Definition gap : string := "  ".

(** [stringify indent v]: [v] serialised at the current indentation. *)
Fixpoint stringify (indent : string) (v : value) : string :=
  match v with
  | JNull => "null"
  | JBool true => "true"
  | JBool false => "false"
  | JNumber lexeme => lexeme
  | JString s => quote s
  | JArray [] => "[]"
  | JArray items =>
      let inner := indent +:+ gap in
      "[" +:+ nl +:+ inner
        +:+ join ("," +:+ nl +:+ inner) (map (stringify inner) items)
        +:+ nl +:+ indent +:+ "]"
  | JObject [] => "{}"
  | JObject members =>
      let inner := indent +:+ gap in
      "{" +:+ nl +:+ inner
        +:+ join ("," +:+ nl +:+ inner)
              (map (fun kv => quote (fst kv) +:+ ": " +:+ stringify inner (snd kv)) members)
        +:+ nl +:+ indent +:+ "}"
  end.

Definition JSON_stringify (v : value) : string := stringify EmptyString v.

(** ** [JSON.parse] *)

Definition is_ws (c : ascii) : bool :=
  match c with
  | " "%char | "009"%char | "010"%char | "013"%char => true
  | _ => false
  end.

Fixpoint skip_ws (s : string) : string :=
  match s with
  | String c r => if is_ws c then skip_ws r else s
  | EmptyString => EmptyString
  end.

(** UTF-8 encoding of a code unit given by a [\uXXXX] escape. *)
Definition utf8 (n : nat) : string :=
  if (n <? 128)%nat then String (ascii_of_nat n) EmptyString
  else if (n <? 2048)%nat then
    String (ascii_of_nat (192 + n / 64)) (String (ascii_of_nat (128 + n mod 64)) EmptyString)
  else
    String (ascii_of_nat (224 + n / 4096))
      (String (ascii_of_nat (128 + (n / 64) mod 64))
         (String (ascii_of_nat (128 + n mod 64)) EmptyString)).

Definition hex_value (c : ascii) : option nat :=
  match digit_value 16 c with
  | Some d => Some (Z.to_nat d)
  | None => None
  end.

Definition hex4 (a b c d : ascii) : option nat :=
  match hex_value a, hex_value b, hex_value c, hex_value d with
  | Some x, Some y, Some z, Some w => Some (((x * 16 + y) * 16 + z) * 16 + w)%nat
  | _, _, _, _ => None
  end.

Definition prepend (p : string) (r : option (string * string)) : option (string * string) :=
  match r with
  | Some (s, rest) => Some (p +:+ s, rest)
  | None => None
  end.

(** The characters of a string literal after its opening quote, up
    to and including the closing quote; returns the decoded string
    and what follows. *)
Fixpoint parse_chars (s : string) : option (string * string) :=
  match s with
  | EmptyString => None
  | String c r =>
      match c with
      | "034"%char => Some (EmptyString, r)
      | "\"%char =>
          match r with
          | String e r' =>
              match e with
              | "034"%char => prepend (String DQ EmptyString) (parse_chars r')
              | "\"%char => prepend "\" (parse_chars r')
              | "/"%char => prepend "/" (parse_chars r')
              | "b"%char => prepend (String "008" EmptyString) (parse_chars r')
              | "f"%char => prepend (String "012" EmptyString) (parse_chars r')
              | "n"%char => prepend (String "010" EmptyString) (parse_chars r')
              | "r"%char => prepend (String "013" EmptyString) (parse_chars r')
              | "t"%char => prepend (String "009" EmptyString) (parse_chars r')
              | "u"%char =>
                  match r' with
                  | String h1 (String h2 (String h3 (String h4 r''))) =>
                      match hex4 h1 h2 h3 h4 with
                      | Some n => prepend (utf8 n) (parse_chars r'')
                      | None => None
                      end
                  | _ => None
                  end
              | _ => None
              end
          | EmptyString => None
          end
      | _ =>
          if (nat_of_ascii c <? 32)%nat then None
          else prepend (String c EmptyString) (parse_chars r)
      end
  end.

Definition is_digit (c : ascii) : bool :=
  let n := nat_of_ascii c in ((48 <=? n) && (n <=? 57))%nat%bool.

(** Splits off the longest prefix of decimal digits. *)
Fixpoint span_digits (s : string) : string * string :=
  match s with
  | String c r =>
      if is_digit c then let '(d, rest) := span_digits r in (String c d, rest)
      else (EmptyString, s)
  | EmptyString => (EmptyString, EmptyString)
  end.

(** A number lexeme: [-? int frac? exp?]. *)
Definition parse_number (s : string) : option (string * string) :=
  let '(sign, s1) :=
    match s with
    | String "-"%char r => ("-", r)
    | _ => (EmptyString, s)
    end in
  let '(int, s2) := span_digits s1 in
  match int with
  | EmptyString => None
  | String "0"%char (String _ _) => None
  | _ =>
      let frac :=
        match s2 with
        | String "."%char r =>
            let '(f, s3) := span_digits r in
            match f with
            | EmptyString => None
            | _ => Some ("." +:+ f, s3)
            end
        | _ => Some (EmptyString, s2)
        end in
      match frac with
      | None => None
      | Some (f, s3) =>
          let exp :=
            match s3 with
            | String e r =>
                if (Ascii.eqb e "e" || Ascii.eqb e "E")%bool then
                  let '(sg, r1) :=
                    match r with
                    | String "+"%char r0 => ("+", r0)
                    | String "-"%char r0 => ("-", r0)
                    | _ => (EmptyString, r)
                    end in
                  let '(x, s4) := span_digits r1 in
                  match x with
                  | EmptyString => None
                  | _ => Some (String e sg +:+ x, s4)
                  end
                else Some (EmptyString, s3)
            | EmptyString => Some (EmptyString, s3)
            end in
          match exp with
          | None => None
          | Some (x, s4) => Some (sign +:+ int +:+ f +:+ x, s4)
          end
      end
  end.

(** Consumes a keyword. *)
Fixpoint expect (kw s : string) : option string :=
  match kw with
  | EmptyString => Some s
  | String k kw' =>
      match s with
      | String c r => if Ascii.eqb k c then expect kw' r else None
      | EmptyString => None
      end
  end.

(** Recursive descent; every call and every loop turn spends one unit
    of fuel.  [parse_items] and [parse_members] start after the
    opening bracket of a non-empty array or object and collect what
    they read in reverse. *)
Fixpoint parse_value (fuel : nat) (s : string) : option (value * string) :=
  match fuel with
  | O => None
  | S fuel =>
      match skip_ws s with
      | EmptyString => None
      | String c r =>
          match c with
          | "n"%char => match expect "ull" r with Some r' => Some (JNull, r') | None => None end
          | "t"%char => match expect "rue" r with Some r' => Some (JBool true, r') | None => None end
          | "f"%char => match expect "alse" r with Some r' => Some (JBool false, r') | None => None end
          | "034"%char =>
              match parse_chars r with
              | Some (str, r') => Some (JString str, r')
              | None => None
              end
          | "["%char =>
              match skip_ws r with
              | String "]"%char r' => Some (JArray [], r')
              | _ => parse_items fuel r []
              end
          | "{"%char =>
              match skip_ws r with
              | String "}"%char r' => Some (JObject [], r')
              | _ => parse_members fuel r []
              end
          | _ =>
              match parse_number (String c r) with
              | Some (lexeme, r') => Some (JNumber lexeme, r')
              | None => None
              end
          end
      end
  end
with parse_items (fuel : nat) (s : string) (acc : list value) : option (value * string) :=
  match fuel with
  | O => None
  | S fuel =>
      match parse_value fuel s with
      | None => None
      | Some (v, r) =>
          match skip_ws r with
          | String ","%char r' => parse_items fuel r' (v :: acc)
          | String "]"%char r' => Some (JArray (rev (v :: acc)), r')
          | _ => None
          end
      end
  end
with parse_members (fuel : nat) (s : string) (acc : list (string * value)) : option (value * string) :=
  match fuel with
  | O => None
  | S fuel =>
      match skip_ws s with
      | String "034"%char r =>
          match parse_chars r with
          | None => None
          | Some (key, r1) =>
              match skip_ws r1 with
              | String ":"%char r2 =>
                  match parse_value fuel r2 with
                  | None => None
                  | Some (v, r3) =>
                      match skip_ws r3 with
                      | String ","%char r' => parse_members fuel r' ((key, v) :: acc)
                      | String "}"%char r' => Some (JObject (rev ((key, v) :: acc)), r')
                      | _ => None
                      end
                  end
              | _ => None
              end
          end
      | _ => None
      end
  end.

(** [JSON.parse]: one value, then nothing but white space.  The fuel
    is the length of the text and one more: every call and every loop
    turn reads at least one character of its own. *)
Definition JSON_parse (s : string) : option value :=
  match parse_value (S (String.length s)) s with
  | Some (v, rest) =>
      match skip_ws rest with
      | EmptyString => Some v
      | String _ _ => None
      end
  | None => None
  end.

End Json.

(* ================================================================= *)
(** * The world the program runs in *)

Module Runtime.
Import Js.

(** What a host call can throw. *)
Inductive Error :=
| StoreWriteError            (** the database could not run the statement *)
| SqliteError                (** the statement or its bindings are not accepted *)
| FsError (code : string)    (** a failed [fs] call, with its error code *)
| SyntaxError                (** [JSON.parse] on a malformed text *)
| TypeError.                 (** a call of something that is not a function *)

(** A row of the table [logs]. *)
Record Row := mkRow {
  row_id : Z;
  row_level : string;
  row_message : string;
  row_timestamp : string
}.

(** The [console] methods the program calls. *)
Inductive ConsoleMethod := console_log | console_info | console_error.

(** One [console] call: the text, and the error object passed along
    with it, if any. *)
Record ConsoleCall := mkConsoleCall {
  method : ConsoleMethod;
  text : string;
  detail : option Error
}.

(** A call that changes the file system. *)
Inductive FsOp :=
| Mkdir (path : string)
| WriteFile (path content : string).

(** Which host calls are going to fail (disk full, permissions, a
    locked database, ...). *)
Record Faults := mkFaults {
  db_fault : bool;
  mkdir_fault : bool;
  read_fault : bool;
  write_fault : bool
}.

Definition no_faults : Faults := mkFaults false false false false.

Record World := mkWorld {
  files : gmap string string;     (** regular files and their content, the database's apart *)
  dirs : gset string;             (** directories *)
  fs_ops : list FsOp;             (** file-system changes so far, oldest first *)
  logs : list Row;                (** the table [logs], in insertion order *)
  next_id : Z;                    (** the next AUTOINCREMENT key *)
  console : list ConsoleCall;     (** console calls so far, oldest first *)
  ticks : nat;                    (** how many times the clock was read *)
  faults : Faults
}.

(** What the host decides: the reading of the clock at each read, and
    how its locale renders an instant. *)
Record Host := mkHost {
  clock : nat -> Date.t;
  toLocaleString : Date.t -> string
}.

(** ** Computations: state and exceptions *)

Inductive Result (A : Type) :=
| Ok (a : A) (w : World)
| Throw (e : Error) (w : World).
Arguments Ok {A} a w.
Arguments Throw {A} e w.

Definition M (A : Type) : Type := World -> Result A.

Definition ret {A} (a : A) : M A := fun w => Ok a w.

Definition bind {A B} (m : M A) (k : A -> M B) : M B :=
  fun w =>
    match m w with
    | Ok a w' => k a w'
    | Throw e w' => Throw e w'
    end.

Definition throw {A} (e : Error) : M A := fun w => Throw e w.

(** [try { m } catch (error) { handler error }] *)
Definition try_catch {A} (m : M A) (handler : Error -> M A) : M A :=
  fun w =>
    match m w with
    | Ok a w' => Ok a w'
    | Throw e w' => handler e w'
    end.

(** [if (c) { m }] *)
Definition when (c : bool) (m : M unit) : M unit :=
  if c then m else ret tt.

Definition world_of {A} (r : Result A) : World :=
  match r with
  | Ok _ w => w
  | Throw _ w => w
  end.

Definition returns {A} (r : Result A) : bool :=
  match r with
  | Ok _ _ => true
  | Throw _ _ => false
  end.

(** ** World updates *)

Definition with_fs (f : gmap string string) (d : gset string) (op : FsOp) (w : World) : World :=
  mkWorld f d (fs_ops w ++ [op]) (logs w) (next_id w) (console w) (ticks w) (faults w).

Definition with_row (r : Row) (w : World) : World :=
  mkWorld (files w) (dirs w) (fs_ops w) (logs w ++ [r]) (next_id w + 1) (console w)
    (ticks w) (faults w).

Definition with_console (c : ConsoleCall) (w : World) : World :=
  mkWorld (files w) (dirs w) (fs_ops w) (logs w) (next_id w) (console w ++ [c])
    (ticks w) (faults w).

Definition with_tick (w : World) : World :=
  mkWorld (files w) (dirs w) (fs_ops w) (logs w) (next_id w) (console w)
    (S (ticks w)) (faults w).

(** ** [Date] and [console] *)

(** [new Date()]: one read of the clock. *)
Definition new_Date (h : Host) : M Date.t :=
  fun w => Ok (clock h (ticks w)) (with_tick w).

Definition console_call (m : ConsoleMethod) (s : string) (d : option Error) : M unit :=
  fun w => Ok tt (with_console (mkConsoleCall m s d) w).

(** ** [path.dirname] *)

Definition is_slash (c : ascii) : bool := Ascii.eqb c "/".

Fixpoint drop_while (p : ascii -> bool) (l : list ascii) : list ascii :=
  match l with
  | c :: r => if p c then drop_while p r else l
  | [] => []
  end.

Definition dirname (path : string) : string :=
  match list_ascii_of_string path with
  | [] => "."
  | first :: tail =>
      (* scanning from the end, down to index 1: trailing slashes,
         then the last component, then the slash before it *)
      let scan := drop_while (fun c => negb (is_slash c)) (drop_while is_slash (rev tail)) in
      match scan with
      | [] => if is_slash first then "/" else "."
      | _ :: before =>
          match before with
          | [] => if is_slash first then "//" else String first EmptyString
          | _ => string_of_list_ascii (first :: rev before)
          end
      end
  end.

(** ** [fs] *)

Definition exists_at (w : World) (p : string) : bool :=
  bool_decide (is_Some (files w !! p)) || bool_decide (p ∈ dirs w).

Definition existsSync (p : string) : M bool :=
  fun w => Ok (exists_at w p) w.

(** A directory and the directories above it, nearest first. *)
Fixpoint lineage (fuel : nat) (p : string) : list string :=
  match fuel with
  | O => [p]
  | S k =>
      let d := dirname p in
      if String.eqb d p then [p] else p :: lineage k d
  end.

(** [mkdirSync(p, { recursive: true })] *)
Definition mkdirSync (p : string) : M unit :=
  fun w =>
    let chain := lineage (String.length p) p in
    if mkdir_fault (faults w) then Throw (FsError "EACCES") w
    else if existsb (fun d => bool_decide (is_Some (files w !! d))) chain
    then Throw (FsError "ENOTDIR") w
    else Ok tt (with_fs (files w) (list_to_set chain ∪ dirs w) (Mkdir p) w).

(** Well-formed UTF-8 (the Unicode Standard, table 3-7), on the values
    of the bytes. *)
Definition is_continuation (n : nat) : bool := ((128 <=? n) && (n <=? 191))%nat.

Fixpoint well_formed (bytes : list nat) : bool :=
  match bytes with
  | [] => true
  | a :: rest =>
      if (a <? 128)%nat then well_formed rest
      else
        match rest with
        | [] => false
        | b :: rest1 =>
            if ((194 <=? a) && (a <=? 223))%nat then is_continuation b && well_formed rest1
            else
              match rest1 with
              | [] => false
              | c :: rest2 =>
                  if ((224 <=? a) && (a <=? 239))%nat then
                    (if (a =? 224)%nat then ((160 <=? b) && (b <=? 191))%nat
                     else if (a =? 237)%nat then ((128 <=? b) && (b <=? 159))%nat
                     else is_continuation b)
                    && is_continuation c && well_formed rest2
                  else
                    match rest2 with
                    | [] => false
                    | d :: rest3 =>
                        ((240 <=? a) && (a <=? 244))%nat
                        && (if (a =? 240)%nat then ((144 <=? b) && (b <=? 191))%nat
                            else if (a =? 244)%nat then ((128 <=? b) && (b <=? 143))%nat
                            else is_continuation b)
                        && is_continuation c && is_continuation d && well_formed rest3
                    end
              end
        end
  end.

(** The byte order mark, U+FEFF in UTF-8. *)
Definition BOM : string := String "239" (String "187" (String "191" EmptyString)).

(** A content that a read in UTF-8 returns byte for byte: well-formed
    UTF-8 without a byte order mark in front. *)
Definition utf8_text (s : string) : bool :=
  well_formed (map nat_of_ascii (list_ascii_of_string s)) && negb (String.prefix BOM s).

(** [readFileSync(p, 'utf-8')].  The content comes back as it is
    stored.  This is what the call does with a [utf8_text], and with
    everything the program wrote itself; bytes that are not UTF-8 the
    call would replace by U+FFFD, which the model does not follow. *)
Definition readFileSync (p : string) : M string :=
  fun w =>
    if read_fault (faults w) then Throw (FsError "EACCES") w
    else match files w !! p with
         | Some content => Ok content w
         | None => Throw (FsError (if bool_decide (p ∈ dirs w) then "EISDIR" else "ENOENT")) w
         end.

(** [writeFileSync(p, content)]: the directory of [p] has to be there;
    when it is not, the error tells whether a regular file stands in
    the way. *)
Definition writeFileSync (p content : string) : M unit :=
  fun w =>
    if write_fault (faults w) then Throw (FsError "EACCES") w
    else if bool_decide (p ∈ dirs w) then Throw (FsError "EISDIR") w
    else if bool_decide (dirname p ∈ dirs w)
    then Ok tt (with_fs (<[p := content]> (files w)) (dirs w) (WriteFile p content) w)
    else if existsb (fun d => bool_decide (is_Some (files w !! d)))
              (lineage (String.length (dirname p)) (dirname p))
    then Throw (FsError "ENOTDIR") w
    else Throw (FsError "ENOENT") w.

End Runtime.

Declare Scope wlog_scope.
Delimit Scope wlog_scope with wlog.
Notation "x <- m ;; k" := (Runtime.bind m (fun x => k))
  (at level 100, m at next level, right associativity) : wlog_scope.
Notation "m ;;; k" := (Runtime.bind m (fun _ => k))
  (at level 100, right associativity) : wlog_scope.

(* ================================================================= *)
(** * The fragment of SQLite the program speaks *)

Module Sqlite.
Import Js Runtime.
Local Open Scope wlog_scope.

(** A value bound to a [?]. *)
Inductive binding :=
| BText (s : string)
| BNumber (n : number).

(** The text a binding stores or compares as in a TEXT column; [NaN]
    binds as NULL. *)
Definition text_of (b : binding) : option string :=
  match b with
  | BText s => Some s
  | BNumber (Num z) => Some (if z <? 0 then "-" +:+ Date.decimal (- z) else Date.decimal z)
  | BNumber NaN => None
  | BNumber (Infinity negative) => Some (if negative then "-Inf" else "Inf")
  end.

(** The integer a bound number gives where the statement wants one
    (LIMIT, OFFSET): the number itself when it lies strictly between
    [-2^63] and [2^63].  Any other number is bound as a REAL that no
    64-bit integer equals, and the database refuses it
    (SQLITE_MISMATCH). *)
Definition integer_of (n : number) : option Z :=
  match n with
  | Num z => if (- 2 ^ 63 <? z) && (z <? 2 ^ 63) then Some z else None
  | NaN | Infinity _ => None
  end.

Definition INSERT_LOG : string :=
  "INSERT INTO logs (level, message, timestamp) VALUES (?, ?, ?)".

(** [db.run(sql, values)].  The only statement the program runs is
    the insert above; every column is NOT NULL.  (The database writes
    the row to its own file, which [files] leaves out.) *)
Definition run (sql : string) (values : list binding) : M unit :=
  fun w =>
    if db_fault (faults w) then Throw StoreWriteError w
    else if String.eqb sql INSERT_LOG then
      match map text_of values with
      | [Some level; Some message; Some timestamp] =>
          Ok tt (with_row (mkRow (next_id w) level message timestamp) w)
      | _ => Throw SqliteError w
      end
    else Throw SqliteError w.

(** ** SELECT *)

Inductive column := col_timestamp | col_level.
Inductive comparison_op := op_ge | op_le | op_eq.
Inductive direction := ASC | DESC.

Record select := mkSelect {
  conds : list (column * comparison_op);
  dir : direction;
  has_limit : bool;
  has_offset : bool
}.

(** The words of a statement: maximal runs without a space. *)
Fixpoint words_from (cur : string) (s : string) : list string :=
  let flush := match cur with EmptyString => [] | _ => [cur] end in
  match s with
  | EmptyString => flush
  | String c r =>
      if Ascii.eqb c " " then flush ++ words_from EmptyString r
      else words_from (cur +:+ String c EmptyString) r
  end.

Definition words (s : string) : list string := words_from EmptyString s.

Definition parse_cond (a b c : string) : option (column * comparison_op) :=
  if negb (String.eqb c "?") then None
  else if String.eqb a "timestamp" && String.eqb b ">=" then Some (col_timestamp, op_ge)
  else if String.eqb a "timestamp" && String.eqb b "<=" then Some (col_timestamp, op_le)
  else if String.eqb a "level" && String.eqb b "=" then Some (col_level, op_eq)
  else None.

(** [cond (AND cond)*], up to [ORDER]. *)
Fixpoint parse_conds (fuel : nat) (ws : list string)
  : option (list (column * comparison_op) * list string) :=
  match fuel, ws with
  | S k, a :: b :: c :: rest =>
      match parse_cond a b c with
      | None => None
      | Some p =>
          match rest with
          | "AND" :: rest' =>
              match parse_conds k rest' with
              | Some (ps, tail) => Some (p :: ps, tail)
              | None => None
              end
          | _ => Some ([p], rest)
          end
      end
  | _, _ => None
  end.

Definition parse_direction (w : string) : option direction :=
  let u := toUpperCase w in
  if String.eqb u "ASC" then Some ASC
  else if String.eqb u "DESC" then Some DESC
  else None.

Definition parse_tail (c : list (column * comparison_op)) (ws : list string) : option select :=
  match ws with
  | "ORDER" :: "BY" :: "timestamp" :: d :: rest =>
      match parse_direction d with
      | None => None
      | Some d =>
          match rest with
          | [] => Some (mkSelect c d false false)
          | ["LIMIT"; "?"] => Some (mkSelect c d true false)
          | ["LIMIT"; "?"; "OFFSET"; "?"] => Some (mkSelect c d true true)
          | _ => None
          end
      end
  | _ => None
  end.

(** [db.prepare]: statements outside the fragment
    [SELECT * FROM logs [WHERE ...] ORDER BY timestamp dir [LIMIT ? [OFFSET ?]]]
    are reported as errors. *)
Definition prepare (sql : string) : option select :=
  match words sql with
  | "SELECT" :: "*" :: "FROM" :: "logs" :: rest =>
      match rest with
      | "WHERE" :: rest' =>
          match parse_conds (length rest') rest' with
          | Some (c, tail) => parse_tail c tail
          | None => None
          end
      | _ => parse_tail [] rest
      end
  | _ => None
  end.

Definition column_of (c : column) (r : Row) : string :=
  match c with
  | col_timestamp => row_timestamp r
  | col_level => row_level r
  end.

(** Text comparison is byte-wise; a comparison with NULL is not true. *)
Definition holds (c : column * comparison_op) (b : binding) (r : Row) : bool :=
  match text_of b with
  | None => false
  | Some v =>
      match snd c with
      | op_ge => String.leb v (column_of (fst c) r)
      | op_le => String.leb (column_of (fst c) r) v
      | op_eq => String.eqb (column_of (fst c) r) v
      end
  end.

(** The rows that satisfy every condition; the bindings left over. *)
Fixpoint apply_conds (cs : list (column * comparison_op)) (bs : list binding) (rows : list Row)
  : option (list Row * list binding) :=
  match cs, bs with
  | [], _ => Some (rows, bs)
  | c :: cs', b :: bs' => apply_conds cs' bs' (List.filter (fun r => holds c b r) rows)
  | _ :: _, [] => None
  end.

Definition before (d : direction) (a b : Row) : bool :=
  match d with
  | ASC => String.leb (row_timestamp a) (row_timestamp b)
  | DESC => String.leb (row_timestamp b) (row_timestamp a)
  end.

Fixpoint insert_sorted (d : direction) (r : Row) (l : list Row) : list Row :=
  match l with
  | [] => [r]
  | x :: xs => if before d r x then r :: l else x :: insert_sorted d r xs
  end.

(** ORDER BY: a stable sort (rows with equal timestamps keep their
    insertion order). *)
Definition order_by (d : direction) (rows : list Row) : list Row :=
  fold_right (insert_sorted d) [] rows.

(** LIMIT: a negative limit is no limit. *)
Definition limit_rows (k : Z) (rows : list Row) : list Row :=
  if k <? 0 then rows else firstn (Z.to_nat k) rows.

(** OFFSET: a negative offset is no offset. *)
Definition offset_rows (m : Z) (rows : list Row) : list Row :=
  skipn (Z.to_nat m) rows.

Definition paginate (q : select) (bs : list binding) (rows : list Row) : option (list Row) :=
  match has_limit q, has_offset q, bs with
  | false, _, [] => Some rows
  | true, false, [BNumber k] =>
      match integer_of k with
      | Some k => Some (limit_rows k rows)
      | None => None
      end
  | true, true, [BNumber k; BNumber m] =>
      match integer_of k, integer_of m with
      | Some k, Some m => Some (limit_rows k (offset_rows m rows))
      | _, _ => None
      end
  | _, _, _ => None
  end.

Definition execute (q : select) (bs : list binding) (rows : list Row) : option (list Row) :=
  match apply_conds (conds q) bs rows with
  | Some (matching, bs') => paginate q bs' (order_by (dir q) matching)
  | None => None
  end.

(** [db.prepare(sql).all(...values)] *)
Definition all (sql : string) (values : list binding) : M (list Row) :=
  fun w =>
    if db_fault (faults w) then Throw StoreWriteError w
    else match prepare sql with
         | None => Throw SqliteError w
         | Some q =>
             match execute q values (logs w) with
             | Some rows => Ok rows w
             | None => Throw SqliteError w
             end
         end.

End Sqlite.

(* ================================================================= *)
(** * [src/wlog.ts] *)

Module Wlog.
Import Js Json Runtime.
Local Open Scope wlog_scope.

(** [enum LogFormat]; [extension] is the value of each member. *)
Inductive LogFormat := TEXT | JSON | CSV.

Definition extension (f : LogFormat) : string :=
  match f with
  | TEXT => "txt"
  | JSON => "json"
  | CSV => "csv"
  end.

Record LogEntry := mkLogEntry {
  timestamp : string;
  level : string;
  message : string
}.

(** The configuration as the caller gives it: every field optional. *)
Module Options.
Record ServerOptions := mkServerOptions {
  enable : option bool;
  port : option Z;
  path : option string;
  livePath : option string
}.

Record WlogConfig := mkWlogConfig {
  logToConsole : option bool;
  logToFile : option bool;
  filePath : option string;
  fileFormat : option LogFormat;
  serverOptions : option ServerOptions
}.

(** [{}] *)
Definition empty : WlogConfig := mkWlogConfig None None None None None.
End Options.

(** [Required<WlogConfig>]: the configuration the instance keeps. *)
Record ServerConfig := mkServerConfig {
  enable : bool;
  port : Z;
  path : string;
  livePath : string
}.

Record Config := mkConfig {
  logToConsole : bool;
  logToFile : bool;
  filePath : string;
  fileFormat : LogFormat;
  serverOptions : ServerConfig
}.

(** [interface LogQueryParams].  [order] is declared ['ASC' | 'DESC'];
    at run time it is whatever string the caller put there. *)
Module Params.
Record LogQueryParams := mkLogQueryParams {
  startDate : option string;
  endDate : option string;
  level : option string;
  limit : option number;
  offset : option number;
  order : option string
}.
End Params.
Abbreviation LogQueryParams := Params.LogQueryParams.

(** [a ?? b] *)
Definition nullish {A} (a : option A) (b : A) : A :=
  match a with
  | Some x => x
  | None => b
  end.

(** [a?.f] *)
Definition optional_chain {A B} (a : option A) (f : A -> option B) : option B :=
  match a with
  | Some x => f x
  | None => None
  end.

(** [new Database("wlog.db")]: the file of the database, in the working
    directory. *)
Definition database_file : string := "wlog.db".

(** The constructor, as far as [this.config] goes.  (It also opens
    the database and creates the table [logs] when it is missing;
    the table is [Runtime.logs].) *)
Definition constructor (config : Options.WlogConfig) : Config :=
  {| logToConsole := nullish (Options.logToConsole config) true;
     logToFile := nullish (Options.logToFile config) false;
     filePath := nullish (Options.filePath config) "logs";
     fileFormat := nullish (Options.fileFormat config) TEXT;
     serverOptions :=
       {| enable := nullish (optional_chain (Options.serverOptions config) Options.enable) false;
          port := nullish (optional_chain (Options.serverOptions config) Options.port) 3000;
          path := nullish (optional_chain (Options.serverOptions config) Options.path) "/logs";
          livePath :=
            nullish (optional_chain (Options.serverOptions config) Options.livePath) "/live" |} |}.

(** ** The query builder *)

(** [if (field) { conditions.push(cond); values.push(field); }] *)
Definition push_condition (field : option string) (cond : string)
    (st : list string * list Sqlite.binding) : list string * list Sqlite.binding :=
  match field with
  | Some v =>
      if truthy v then (fst st ++ [cond], snd st ++ [Sqlite.BText v]) else st
  | None => st
  end.

(** [if (field) { query += clause; values.push(field); ...then }] *)
Definition push_clause (field : option number) (clause : string)
    (next : string * list Sqlite.binding -> string * list Sqlite.binding)
    (st : string * list Sqlite.binding) : string * list Sqlite.binding :=
  match field with
  | Some n =>
      if truthy_number n then next (fst st +:+ clause, snd st ++ [Sqlite.BNumber n]) else st
  | None => st
  end.

Definition buildQueryFromParams (params : LogQueryParams) : string * list Sqlite.binding :=
  let st := ([], []) in
  let st := push_condition (Params.startDate params) "timestamp >= ?" st in
  let st := push_condition (Params.endDate params) "timestamp <= ?" st in
  let st := push_condition (Params.level params) "level = ?" st in
  let '(conditions, values) := st in
  let query := "SELECT * FROM logs" in
  let query :=
    if (0 <? length conditions)%nat
    then query +:+ " WHERE " +:+ join " AND " conditions
    else query in
  let query := query +:+ " ORDER BY timestamp " +:+ or_else (Params.order params) "DESC" in
  push_clause (Params.limit params) " LIMIT ?"
    (push_clause (Params.offset params) " OFFSET ?" id)
    (query, values).

(** ** The fetch handler *)

(** [URLSearchParams]: decoded name/value pairs in order. *)
Definition SearchParams := list (string * string).

(** [searchParams.get(name)]: the first value, or [null]. *)
Fixpoint get (name : string) (sp : SearchParams) : option string :=
  match sp with
  | [] => None
  | (k, v) :: rest => if String.eqb k name then Some v else get name rest
  end.

(** [get(name) ? parseInt(get(name)!) : undefined] *)
Definition get_int (name : string) (sp : SearchParams) : option number :=
  match get name sp with
  | Some v => if truthy v then Some (parseInt v) else None
  | None => None
  end.

Definition params_of (sp : SearchParams) : LogQueryParams :=
  {| Params.startDate := or_undefined (get "startDate" sp);
     Params.endDate := or_undefined (get "endDate" sp);
     Params.level := or_undefined (get "level" sp);
     Params.limit := get_int "limit" sp;
     Params.offset := get_int "offset" sp;
     Params.order := Some (or_else (optional_chain (get "order" sp) (fun o => Some (toUpperCase o))) "DESC") |}.

Record Request := mkRequest {
  pathname : string;
  searchParams : SearchParams
}.

Inductive Response :=
| JsonRows (rows : list Row)     (** [JSON.stringify(logs)], CORS open *)
| LivePage                       (** the HTML page polling the endpoint *)
| Text (body : string).

Definition fetch (config : Config) (req : Request) : M Response :=
  if String.eqb (pathname req) (path (serverOptions config)) then
    let params := params_of (searchParams req) in
    let '(query, values) := buildQueryFromParams params in
    logs <- Sqlite.all query values ;;
    ret (JsonRows logs)
  else if String.eqb (pathname req) (livePath (serverOptions config)) then ret LivePage
  else ret (Text "Wlog Server Running").

(** ** The file sink and the facade *)

Section Instance.
Variable host : Host.
Variable config : Config.

Definition getTimestamp : M string :=
  d <- new_Date host ;;
  ret (toLocaleString host d).

Definition getFullFilePath : string :=
  filePath config +:+ "." +:+ extension (fileFormat config).

Definition formatLogEntry (level message : string) : M LogEntry :=
  ts <- getTimestamp ;;
  ret (mkLogEntry ts level message).

Definition ensureDirectoryExists (filePath : string) : M unit :=
  let dir := dirname filePath in
  found <- existsSync dir ;;
  when (negb found) (mkdirSync dir).

(** A [LogEntry] as a JSON value. *)
Definition entry_value (entry : LogEntry) : value :=
  JObject [("timestamp", JString (timestamp entry));
           ("level", JString (level entry));
           ("message", JString (message entry))].

(** [JSON.parse(content)], throwing on a malformed text. *)
Definition parse (content : string) : M value :=
  match JSON_parse content with
  | Some v => ret v
  | None => throw SyntaxError
  end.

(** [logs.push(entry)]: only an array has a [push]. *)
Definition push (logs : value) (entry : LogEntry) : M value :=
  match logs with
  | JArray items => ret (JArray (items ++ [entry_value entry]))
  | _ => throw TypeError
  end.

Definition csv_header : string := "timestamp,level,message" +:+ nl.

Definition csv_line (entry : LogEntry) : string :=
  timestamp entry +:+ "," +:+ level entry +:+ "," +:+ message entry +:+ nl.

Definition text_line (entry : LogEntry) : string :=
  "[" +:+ timestamp entry +:+ "] [" +:+ level entry +:+ "] " +:+ message entry +:+ nl.

Definition writeToFile (entry : LogEntry) : M unit :=
  try_catch
    (let filePath := getFullFilePath in
     ensureDirectoryExists filePath ;;;
     found <- existsSync filePath ;;
     content <- (if found then readFileSync filePath else ret EmptyString) ;;
     newContent <-
       match fileFormat config with
       | JSON =>
           logs <- (if truthy content then parse content else ret (JArray [])) ;;
           logs <- push logs entry ;;
           ret (JSON_stringify logs)
       | CSV =>
           let content := if negb (truthy content) then csv_header else content in
           ret (content +:+ csv_line entry)
       | TEXT =>
           ret (content +:+ text_line entry)
       end ;;
     writeFileSync filePath newContent)
    (fun error => console_call console_error "Failed to write to log file:" (Some error)).

Definition log (message : string) : M unit :=
  now <- new_Date host ;;
  Sqlite.run "INSERT INTO logs (level, message, timestamp) VALUES (?, ?, ?)"
    [Sqlite.BText "log"; Sqlite.BText message; Sqlite.BText (Date.toISOString now)] ;;;
  when (logToConsole config)
    (ts <- getTimestamp ;;
     console_call console_log ("[" +:+ ts +:+ "] [LOG] " +:+ message) None) ;;;
  when (logToFile config)
    (entry <- formatLogEntry "LOG" message ;;
     writeToFile entry).

Definition info (message : string) : M unit :=
  now <- new_Date host ;;
  Sqlite.run "INSERT INTO logs (level, message, timestamp) VALUES (?, ?, ?)"
    [Sqlite.BText "info"; Sqlite.BText message; Sqlite.BText (Date.toISOString now)] ;;;
  when (logToConsole config)
    (ts <- getTimestamp ;;
     console_call console_info ("[" +:+ ts +:+ "] [INFO] " +:+ message) None) ;;;
  when (logToFile config)
    (entry <- formatLogEntry "INFO" message ;;
     writeToFile entry).

Definition error (message : string) : M unit :=
  now <- new_Date host ;;
  Sqlite.run "INSERT INTO logs (level, message, timestamp) VALUES (?, ?, ?)"
    [Sqlite.BText "error"; Sqlite.BText message; Sqlite.BText (Date.toISOString now)] ;;;
  when (logToConsole config)
    (ts <- getTimestamp ;;
     console_call console_error ("[" +:+ ts +:+ "] [ERROR] " +:+ message) None) ;;;
  when (logToFile config)
    (entry <- formatLogEntry "ERROR" message ;;
     writeToFile entry).

End Instance.

End Wlog.

(* ================================================================= *)
(** * Vocabulary of the properties *)

Module Vocabulary.
Import Js Json Runtime Wlog.

(** ** The query builder *)

(** The predicate a filter field contributes, with the value to bind:
    none unless the field is present.  A field is present when the
    builder's own test on it succeeds, that is, when it holds a
    non-empty string. *)
Definition predicate_of (field : option string) (cond : string) : list (string * string) :=
  match field with
  | Some v => if truthy v then [(cond, v)] else []
  | None => []
  end.

(** The predicates of a request, in the fixed order. *)
Definition predicates (p : LogQueryParams) : list (string * string) :=
  predicate_of (Params.startDate p) "timestamp >= ?"
    ++ predicate_of (Params.endDate p) "timestamp <= ?"
    ++ predicate_of (Params.level p) "level = ?".

Definition where_clause (preds : list string) : string :=
  match preds with
  | [] => EmptyString
  | _ => " WHERE " +:+ join " AND " preds
  end.

(** The statement up to and including ORDER BY. *)
Definition ordered_query (p : LogQueryParams) : string :=
  "SELECT * FROM logs" +:+ where_clause (map fst (predicates p))
    +:+ " ORDER BY timestamp " +:+ or_else (Params.order p) "DESC".

Definition predicate_values (p : LogQueryParams) : list Sqlite.binding :=
  map (fun cv => Sqlite.BText (snd cv)) (predicates p).

(** The LIMIT/OFFSET suffix and its bindings. *)
Definition pagination (p : LogQueryParams) : string * list Sqlite.binding :=
  match Params.limit p with
  | Some k =>
      if truthy_number k then
        match Params.offset p with
        | Some m =>
            if truthy_number m
            then (" LIMIT ? OFFSET ?", [Sqlite.BNumber k; Sqlite.BNumber m])
            else (" LIMIT ?", [Sqlite.BNumber k])
        | None => (" LIMIT ?", [Sqlite.BNumber k])
        end
      else (EmptyString, [])
  | None => (EmptyString, [])
  end.

Definition with_startDate (v : option string) (p : LogQueryParams) : LogQueryParams :=
  Params.mkLogQueryParams v (Params.endDate p) (Params.level p) (Params.limit p)
    (Params.offset p) (Params.order p).

Definition with_endDate (v : option string) (p : LogQueryParams) : LogQueryParams :=
  Params.mkLogQueryParams (Params.startDate p) v (Params.level p) (Params.limit p)
    (Params.offset p) (Params.order p).

Definition with_level (v : option string) (p : LogQueryParams) : LogQueryParams :=
  Params.mkLogQueryParams (Params.startDate p) (Params.endDate p) v (Params.limit p)
    (Params.offset p) (Params.order p).

Definition with_limit (v : option number) (p : LogQueryParams) : LogQueryParams :=
  Params.mkLogQueryParams (Params.startDate p) (Params.endDate p) (Params.level p) v
    (Params.offset p) (Params.order p).

Definition with_offset (v : option number) (p : LogQueryParams) : LogQueryParams :=
  Params.mkLogQueryParams (Params.startDate p) (Params.endDate p) (Params.level p)
    (Params.limit p) v (Params.order p).

(** The request without its pagination. *)
Definition unpaginated (p : LogQueryParams) : LogQueryParams :=
  with_limit None (with_offset None p).

(** The order is one the data model allows: [ASC], [DESC], or absent. *)
Definition valid_order (p : LogQueryParams) : Prop :=
  Params.order p = None \/ Params.order p = Some "ASC" \/ Params.order p = Some "DESC".

(** What the endpoint does with a filter request: build, prepare, run. *)
Definition run_query (p : LogQueryParams) : M (list Row) :=
  let '(query, values) := buildQueryFromParams p in
  Sqlite.all query values.

(** The database takes a binding: a text, or a number that gives an
    integer. *)
Definition accepted (b : Sqlite.binding) : bool :=
  match b with
  | Sqlite.BText _ => true
  | Sqlite.BNumber n =>
      match Sqlite.integer_of n with
      | Some _ => true
      | None => false
      end
  end.

(** The limit and the offset a request binds, if any, are integers the
    database takes: they lie strictly between [-2^63] and [2^63]. *)
Definition page_ok (p : LogQueryParams) : bool :=
  forallb accepted (snd (pagination p)).

(** The rows an OFFSET skips; a falsy or negative offset skips none. *)
Definition skip_count (offset : option number) : nat :=
  match offset with
  | Some (Num m) => Z.to_nat m
  | _ => O
  end.

(** The statement the database prepares for a request. *)
Definition condition_of (cond : string * string) : list (Sqlite.column * Sqlite.comparison_op) :=
  match Sqlite.words (fst cond) with
  | [a; b; c] =>
      match Sqlite.parse_cond a b c with
      | Some x => [x]
      | None => []
      end
  | _ => []
  end.

Definition direction_of (p : LogQueryParams) : Sqlite.direction :=
  match Params.order p with
  | Some "ASC" => Sqlite.ASC
  | _ => Sqlite.DESC
  end.

Definition selection (p : LogQueryParams) : Sqlite.select :=
  Sqlite.mkSelect (flat_map condition_of (predicates p)) (direction_of p)
    (present_number (Params.limit p))
    (present_number (Params.limit p) && present_number (Params.offset p)).

(** The rows that satisfy every predicate of a request. *)
Definition matching (p : LogQueryParams) (rows : list Row) : list Row :=
  fold_left
    (fun rows cv =>
       match condition_of cv with
       | [c] => List.filter (fun r => Sqlite.holds c (Sqlite.BText (snd cv)) r) rows
       | _ => rows
       end)
    (predicates p) rows.

(** The filtered and ordered result of a request: what it selects
    before any pagination. *)
Definition filtered_ordered (p : LogQueryParams) (rows : list Row) : list Row :=
  Sqlite.order_by (direction_of p) (matching p rows).

(** Rows [m .. m+k-1] of a result (counting from 0). *)
Definition rows_from (m k : nat) (rows : list Row) : list Row :=
  firstn k (skipn m rows).

(** ** The facade *)

(** Which facade method is called, with what it stores, how it prints
    and where. *)
Inductive Severity := CallLog | CallInfo | CallError.

Definition tag (s : Severity) : string :=
  match s with CallLog => "log" | CallInfo => "info" | CallError => "error" end.

Definition TAG (s : Severity) : string :=
  match s with CallLog => "LOG" | CallInfo => "INFO" | CallError => "ERROR" end.

Definition console_method (s : Severity) : ConsoleMethod :=
  match s with
  | CallLog => console_log
  | CallInfo => console_info
  | CallError => console_error
  end.

(** The three facade methods as one function of the severity. *)
Definition facade (host : Host) (config : Config) (s : Severity) : string -> M unit :=
  match s with
  | CallLog => log host config
  | CallInfo => info host config
  | CallError => error host config
  end.

(** The common shape of their bodies: the stored tag, the console
    method and the printed tag are all that differ. *)
Definition emit (host : Host) (config : Config) (s : Severity) (message : string) : M unit :=
  bind (new_Date host) (fun now =>
  bind (Sqlite.run Sqlite.INSERT_LOG
          [Sqlite.BText (tag s); Sqlite.BText message;
           Sqlite.BText (Date.toISOString now)]) (fun _ =>
  bind (when (logToConsole config)
          (bind (getTimestamp host) (fun ts =>
           console_call (console_method s)
             ("[" +:+ ts +:+ "] [" +:+ TAG s +:+ "] " +:+ message) None))) (fun _ =>
  when (logToFile config)
    (bind (formatLogEntry host (TAG s) message) (fun entry =>
     writeToFile config entry))))).

(** ** One facade call, step by step *)

Section Call.
Variable host : Host.
Variable config : Config.
Variable s : Severity.
Variable message : string.
Variable w : World.

(** The instants the call reads off the clock: for the store, for
    the console, for the file. *)
Definition store_instant : Date.t := clock host (ticks w).
Definition console_instant : Date.t := clock host (S (ticks w)).
Definition file_instant : Date.t :=
  clock host (if logToConsole config then S (S (ticks w)) else S (ticks w)).

Definition stored_row : Row :=
  mkRow (next_id w) (tag s) message (Date.toISOString store_instant).

Definition console_line : ConsoleCall :=
  mkConsoleCall (console_method s)
    ("[" +:+ toLocaleString host console_instant +:+ "] [" +:+ TAG s +:+ "] " +:+ message)
    None.

Definition file_entry : LogEntry :=
  mkLogEntry (toLocaleString host file_instant) (TAG s) message.

(** The world once the row is stored and the console line printed. *)
Definition after_store : World := with_row stored_row (with_tick w).

Definition after_console : World :=
  if logToConsole config then with_console console_line (with_tick after_store)
  else after_store.
End Call.

(** The report of a failed file write on the error channel. *)
Definition failure_report (e : Error) : ConsoleCall :=
  mkConsoleCall console_error "Failed to write to log file:" (Some e).

(** ** The file sink *)

(** The new content of the file, from its old content. *)
Definition render (config : Config) (entry : LogEntry) (content : string) : M string :=
  match fileFormat config with
  | JSON =>
      bind (if truthy content then parse content else ret (JArray []))
        (fun logs => bind (push logs entry) (fun logs => ret (JSON_stringify logs)))
  | CSV =>
      let content := if negb (truthy content) then csv_header else content in
      ret (content +:+ csv_line entry)
  | TEXT =>
      ret (content +:+ text_line entry)
  end.

(** The guarded part of [writeToFile]. *)
Definition attempt (config : Config) (entry : LogEntry) : M unit :=
  let filePath := getFullFilePath config in
  bind (ensureDirectoryExists filePath) (fun _ =>
  bind (existsSync filePath) (fun found =>
  bind (if found then readFileSync filePath else ret EmptyString) (fun content =>
  bind (render config entry content) (fun newContent =>
  writeFileSync filePath newContent)))).

(** Everything but the file system is as it was. *)
Definition same_outside_fs (w w' : World) : Prop :=
  logs w' = logs w /\ next_id w' = next_id w /\ console w' = console w
  /\ ticks w' = ticks w /\ faults w' = faults w.

(** A computation that leaves the files and everything outside the
    file system alone, whether it returns or throws. *)
Definition quiet {A} (m : M A) : Prop :=
  forall w, files (world_of (m w)) = files w /\ same_outside_fs w (world_of (m w)).

(** The file was written, or it is as it was. *)
Definition written_or_untouched {A} (p : string) (w : World) (r : Result A) : Prop :=
  match r with
  | Ok _ w' => (exists c, files w' = <[p := c]> (files w)) /\ same_outside_fs w w'
  | Throw _ w' => files w' = files w /\ same_outside_fs w w'
  end.

(** The world after the log file was written. *)
Definition put_file (config : Config) (content : string) (w : World) : World :=
  with_fs (<[getFullFilePath config := content]> (files w)) (dirs w)
    (WriteFile (getFullFilePath config) content) w.

(** One CSV write, on the content of the file. *)
Definition csv_step (content : string) (entry : LogEntry) : string :=
  (if negb (truthy content) then csv_header else content) +:+ csv_line entry.

(** The entry lines of a CSV file. *)
Fixpoint csv_body (entries : list LogEntry) : string :=
  match entries with
  | [] => EmptyString
  | entry :: rest => csv_line entry +:+ csv_body rest
  end.

(** The entry lines of a CSV file as the format has them:
    [<timestamp>,<level>,<message>] and a line feed for each entry, in
    order. *)
Fixpoint comma_joined_lines (entries : list LogEntry) : string :=
  match entries with
  | [] => EmptyString
  | e :: rest =>
      timestamp e +:+ "," +:+ level e +:+ "," +:+ message e +:+ nl
        +:+ comma_joined_lines rest
  end.

(** A call of the file sink is going to fail on the host: the disk
    refuses the write; or the log file is there and cannot be read; or
    its directory is missing and cannot be made. *)
Definition file_failure (config : Config) (w : World) : Prop :=
  write_fault (faults w) = true
  \/ (read_fault (faults w) = true /\ exists_at w (getFullFilePath config) = true)
  \/ (mkdir_fault (faults w) = true
      /\ exists_at w (dirname (getFullFilePath config)) = false).

(** The text [JSON.stringify] gives an entry inside the array, laid
    out, followed by [rest]. *)
Definition member_text (key val rest : string) : string :=
  String DQ (key +:+ String DQ (": " +:+ String DQ (quote_chars val +:+ String DQ rest))).

Definition entry_text (e : LogEntry) (rest : string) : string :=
  "{" +:+ nl +:+ "    "
    +:+ member_text "timestamp" (timestamp e) ("," +:+ nl +:+ "    "
    +:+ member_text "level" (level e) ("," +:+ nl +:+ "    "
    +:+ member_text "message" (message e) (nl +:+ "  }" +:+ rest))).

(** The text of a non-empty array of entries after its opening
    bracket. *)
Fixpoint items_text (e : LogEntry) (es : list LogEntry) (rest : string) : string :=
  nl +:+ gap +:+ entry_text e
    (match es with
     | [] => nl +:+ "]" +:+ rest
     | e' :: es' => "," +:+ items_text e' es' rest
     end).

(** The array a JSON log file holds after the entries were written. *)
Definition entries_array (entries : list LogEntry) : value :=
  JArray (map entry_value entries).

(** A run of facade calls, in order. *)
Fixpoint run_calls (host : Host) (config : Config) (calls : list (Severity * string))
  : M unit :=
  match calls with
  | [] => ret tt
  | (s, message) :: rest =>
      bind (facade host config s message) (fun _ => run_calls host config rest)
  end.

(** A run of writes through the file sink, in order. *)
Fixpoint write_all (config : Config) (entries : list LogEntry) : M unit :=
  match entries with
  | [] => ret tt
  | entry :: rest =>
      bind (writeToFile config entry) (fun _ => write_all config rest)
  end.

(** The entries a run of facade calls hands to the file sink, the
    clock having been read [t] times before: a call reads the clock
    for the store, for the console if it is enabled, and then for the
    file. *)
Fixpoint entries_of_calls (host : Host) (config : Config) (calls : list (Severity * string))
    (t : nat) : list LogEntry :=
  match calls with
  | [] => []
  | (s, message) :: rest =>
      mkLogEntry
        (toLocaleString host (clock host (if logToConsole config then S (S t) else S t)))
        (TAG s) message
        :: entries_of_calls host config rest
             (if logToConsole config then S (S (S t)) else S (S t))
  end.

(** The lines of a text: what stands before each line feed, and what
    is left after the last one when it is not empty. *)
Fixpoint lines_from (cur : string) (s : string) : list string :=
  match s with
  | EmptyString => match cur with EmptyString => [] | _ => [cur] end
  | String c r =>
      if Ascii.eqb c LF then cur :: lines_from EmptyString r
      else lines_from (cur +:+ String c EmptyString) r
  end.

Definition lines (s : string) : list string := lines_from EmptyString s.

(** Whether a text holds a line feed. *)
Fixpoint has_LF (s : string) : bool :=
  match s with
  | EmptyString => false
  | String c r => Ascii.eqb c LF || has_LF r
  end.

(** [s.endsWith(suffix)] *)
Definition ends_with (suffix s : string) : bool :=
  let n := String.length suffix in
  let m := String.length s in
  (n <=? m)%nat && String.eqb (String.substring (m - n) n s) suffix.

(** The content of a file; an absent file reads as empty, as in
    [writeToFile]. *)
Definition content_of (w : World) (p : string) : string :=
  match files w !! p with
  | Some c => c
  | None => EmptyString
  end.

(** The log file can be written: no file-system fault is pending, its
    directory exists, and its name is not taken by a directory. *)
Definition writable (config : Config) (w : World) : Prop :=
  mkdir_fault (faults w) = false
  /\ read_fault (faults w) = false
  /\ write_fault (faults w) = false
  /\ dirname (getFullFilePath config) ∈ dirs w
  /\ getFullFilePath config ∉ dirs w.

(** ** Concrete hosts and worlds *)

(** An en-US host whose clock starts at 2024-01-01T12:00:00.123Z and
    advances 400 ms between two reads. *)
Definition host_2024 : Host :=
  mkHost (fun n => 1704110400123 + 400 * Z.of_nat n) Date.toLocaleString_enUS.

(** An en-US host whose clock reads 999 ms, 1000 ms, 1001 ms, ... *)
Definition host_1970 : Host :=
  mkHost (fun n => 999 + Z.of_nat n) Date.toLocaleString_enUS.

(** A fresh world: an empty working directory, an empty table, no
    fault. *)
Definition fresh_world : World :=
  mkWorld ∅ {["."]} [] [] 1 [] 0 no_faults.

(** The fresh world with a database that refuses to write. *)
Definition locked : World :=
  mkWorld ∅ {["."]} [] [] 1 [] 0 (mkFaults true false false false).

(** The fresh world on a disk that refuses to write. *)
Definition read_only : World :=
  mkWorld ∅ {["."]} [] [] 1 [] 0 (mkFaults false false false true).

(** The logger of the scenario
    [{logToFile: true, filePath: "t", fileFormat: "csv"}]. *)
Definition csv_logger : Config :=
  constructor (Options.mkWlogConfig None (Some true) (Some "t") (Some CSV) None).

(** A logger writing a JSON file. *)
Definition json_logger : Config :=
  constructor (Options.mkWlogConfig (Some false) (Some true) (Some "t") (Some JSON) None).

(** A logger with the console on and the file off. *)
Definition console_logger : Config :=
  constructor (Options.mkWlogConfig (Some true) (Some false) None None None).

(** The fresh world after one row was logged. *)
Definition one_row : World :=
  mkWorld ∅ {["."]} [] [mkRow 1 "log" "a" "2024-01-01T12:00:00.123Z"] 2 [] 1 no_faults.

End Vocabulary.

(* ================================================================= *)
(** * [src/index.ts] *)

Module Index.
Import Js Runtime Wlog.
Local Open Scope wlog_scope.

(** The three loggers of the script.  Each constructor opens the same
    database file, so the three share the table [logs]; the server the
    first one starts answers with [Wlog.fetch]. *)
Definition textLogger : Config :=
  constructor
    (Options.mkWlogConfig (Some true) (Some true) (Some "logs/text-logs") (Some TEXT)
       (Some (Options.mkServerOptions (Some true) None None None))).

Definition jsonLogger : Config :=
  constructor
    (Options.mkWlogConfig (Some false) (Some true) (Some "logs/json-logs") (Some JSON) None).

Definition csvLogger : Config :=
  constructor
    (Options.mkWlogConfig (Some false) (Some true) (Some "logs/csv-logs") (Some CSV) None).

(** The three calls the script makes when it is loaded. *)
Definition main (host : Host) : M unit :=
  log host textLogger "This is a text log" ;;;
  info host jsonLogger "This is a JSON log" ;;;
  error host csvLogger "This is a CSV log".

(** The callback the script hands to [setInterval]. *)
Definition on_interval (host : Host) : M unit :=
  log host textLogger "This is a text log".

(** The callback fired [n] times. *)
Fixpoint intervals (host : Host) (n : nat) : M unit :=
  match n with
  | O => ret tt
  | S k => on_interval host ;;; intervals host k
  end.

End Index.

(* ================================================================= *)
(** * Vocabulary of further properties *)

Module Behaviour.
Import Js Json Runtime Wlog Vocabulary.

(** The entry lines of a text file. *)
Fixpoint text_body (entries : list LogEntry) : string :=
  match entries with
  | [] => EmptyString
  | entry :: rest => text_line entry +:+ text_body rest
  end.

(** The entry lines of a text file as the format has them:
    [[<timestamp>] [<LEVEL>] <message>] and a line feed for each entry,
    in order. *)
Fixpoint bracketed_lines (entries : list LogEntry) : string :=
  match entries with
  | [] => EmptyString
  | e :: rest =>
      "[" +:+ timestamp e +:+ "] [" +:+ level e +:+ "] " +:+ message e +:+ nl
        +:+ bracketed_lines rest
  end.

(** The lines [n] firings of the interval of the script add to the text
    file, the clock having been read [t] times before: a firing reads
    the clock for the row, for the console and then for the line. *)
Fixpoint interval_lines (host : Host) (t n : nat) : string :=
  match n with
  | O => EmptyString
  | S k =>
      "[" +:+ toLocaleString host (clock host (2 + t)) +:+ "] [LOG] This is a text log" +:+ nl
        +:+ interval_lines host (3 + t) k
  end.

(** The files the database keeps for itself: [wlog.db], and what it
    puts next to it while it writes ([wlog.db-journal], [wlog.db-wal],
    ...). *)
Definition of_database (q : string) : bool := String.prefix database_file q.

(** How many [?] a text holds. *)
Fixpoint placeholders (s : string) : nat :=
  match s with
  | EmptyString => O
  | String c r => (if Ascii.eqb c "?" then 1 else 0) + placeholders r
  end.

(** Whether a row passes the filters of a request. *)
Definition satisfies (p : LogQueryParams) (r : Row) : bool :=
  match Params.startDate p with
  | Some v => if truthy v then String.leb v (row_timestamp r) else true
  | None => true
  end
  && match Params.endDate p with
     | Some v => if truthy v then String.leb (row_timestamp r) v else true
     | None => true
     end
  && match Params.level p with
     | Some v => if truthy v then String.eqb (row_level r) v else true
     | None => true
     end.

(** Two requests that differ at most in the values of their filters
    and of their pagination: the same fields are present, and the
    order is the same. *)
Definition same_shape (p q : LogQueryParams) : Prop :=
  present_string (Params.startDate p) = present_string (Params.startDate q)
  /\ present_string (Params.endDate p) = present_string (Params.endDate q)
  /\ present_string (Params.level p) = present_string (Params.level q)
  /\ present_number (Params.limit p) = present_number (Params.limit q)
  /\ present_number (Params.offset p) = present_number (Params.offset q)
  /\ or_else (Params.order p) "DESC" = or_else (Params.order q) "DESC".

(** The world after [mkdirSync] made the directory of the log file. *)
Definition made_directory (config : Config) (w : World) : World :=
  let dir := dirname (getFullFilePath config) in
  with_fs (files w) (list_to_set (lineage (String.length dir) dir) ∪ dirs w) (Mkdir dir) w.

(** The directory of the log file is missing and can be made: nothing
    stands at its path, no directory above it is a regular file, no
    file-system fault is pending, and the name of the log file is not
    taken by a directory. *)
Definition creatable (config : Config) (w : World) : Prop :=
  let dir := dirname (getFullFilePath config) in
  mkdir_fault (faults w) = false
  /\ read_fault (faults w) = false
  /\ write_fault (faults w) = false
  /\ exists_at w dir = false
  /\ existsb (fun d => bool_decide (is_Some (files w !! d)))
       (lineage (String.length dir) dir) = false
  /\ getFullFilePath config ∉ dirs w.

(** The order a URL asks for is one the database knows, in any case
    of letters, or it asks for none. *)
Definition order_ok (sp : SearchParams) : Prop :=
  match get "order" sp with
  | None => True
  | Some o => o = EmptyString \/ toUpperCase o = "ASC" \/ toUpperCase o = "DESC"
  end.

(** Rows in the order a direction asks for: by timestamp, oldest first
    for [ASC], newest first for [DESC]. *)
Definition in_order (d : Sqlite.direction) (rows : list Row) : Prop :=
  Sorted (fun a b => Sqlite.before d a b = true) rows.

(** No directory goes away, and no file but [p] changes. *)
Definition keeps_others (p : string) (w w' : World) : Prop :=
  dirs w ⊆ dirs w' /\ forall q, q <> p -> files w' !! q = files w !! q.

(** The keys [first], [first + 1], ... of [n] rows. *)
Fixpoint keys_from (first : Z) (n : nat) : list Z :=
  match n with
  | O => []
  | S k => first :: keys_from (first + 1) k
  end.

(** A world the script can start in: no fault is pending; the directory
    [logs] is there, or nothing stands in its place and the working
    directory is not a regular file; and none of the three log files
    exists yet, nor a directory by its name. *)
Definition ready_for_script (w : World) : Prop :=
  faults w = no_faults
  /\ (("logs" ∈ dirs w) \/ (exists_at w "logs" = false /\ files w !! "." = None))
  /\ ("logs/text-logs.txt" ∉ dirs w) /\ ("logs/json-logs.json" ∉ dirs w)
  /\ ("logs/csv-logs.csv" ∉ dirs w)
  /\ files w !! "logs/text-logs.txt" = None
  /\ files w !! "logs/json-logs.json" = None
  /\ files w !! "logs/csv-logs.csv" = None.

(** ** Concrete worlds *)

(** The fresh world with a directory [logs]. *)
Definition world_with_logs : World :=
  mkWorld ∅ ({["."]} ∪ {["logs"]}) [] [] 1 [] 0 no_faults.

(** The fresh world with a regular file named [logs]. *)
Definition world_with_file_logs : World :=
  mkWorld {["logs" := "x"]} {["."]} [] [] 1 [] 0 no_faults.

(** The fresh world with a file [t.json] that holds an object. *)
Definition world_with_object : World :=
  mkWorld {["t.json" := "{}"]} {["."]} [] [] 1 [] 0 no_faults.

(** The fresh world with a file [t.csv] that holds a line and no header. *)
Definition world_with_csv : World :=
  mkWorld {["t.csv" := "x,y,z" +:+ nl]} {["."]} [] [] 1 [] 0 no_faults.

(** A logger writing a text file. *)
Definition text_logger : Config :=
  constructor (Options.mkWlogConfig (Some false) (Some true) (Some "t") None None).

End Behaviour.

(* ================================================================= *)
(** * Facts about strings *)

Module StringFacts.

Lemma app_assoc (a b c : string) : (a +:+ b) +:+ c = a +:+ (b +:+ c).
Proof. induction a as [|x a IH]; simpl; [reflexivity | now rewrite IH]. Qed.

Lemma app_nil_r (a : string) : a +:+ EmptyString = a.
Proof. induction a as [|x a IH]; simpl; [reflexivity | now rewrite IH]. Qed.

Lemma length_app (a b : string) :
  String.length (a +:+ b) = (String.length a + String.length b)%nat.
Proof. induction a as [|x a IH]; simpl; [reflexivity | now rewrite IH]. Qed.

(** Two ways of cutting one string, with tails of the same length, are
    the same cut. *)
Lemma app_inv_length (a c : string) :
  forall b d : string,
    a +:+ b = c +:+ d -> String.length b = String.length d -> a = c /\ b = d.
Proof.
  revert c. induction a as [|x a IH]; intros [|y c] b d Heq Hlen; cbn in Heq.
  - now split.
  - subst b. cbn in Hlen. rewrite length_app in Hlen. lia.
  - subst d. cbn in Hlen. rewrite length_app in Hlen. lia.
  - injection Heq as -> Heq. destruct (IH c b d Heq Hlen) as [-> ->]. now split.
Qed.

Lemma bind_ret_tt (m : Runtime.M unit) (w : Runtime.World) :
  Runtime.bind m (fun _ => Runtime.ret tt) w = m w.
Proof. unfold Runtime.bind, Runtime.ret. now destruct (m w) as [[] ?|]. Qed.

Lemma has_LF_app (a b : string) :
  Vocabulary.has_LF (a +:+ b) = Vocabulary.has_LF a || Vocabulary.has_LF b.
Proof.
  induction a as [|c a IH]; [reflexivity|].
  cbn [String.append Vocabulary.has_LF]. now rewrite IH, orb_assoc.
Qed.

(** A text without line feed, then a line feed: one line. *)
Lemma lines_from_line (s : string) :
  forall cur rest,
    Vocabulary.has_LF s = false ->
    Vocabulary.lines_from cur (s +:+ String Js.LF rest)
    = (cur +:+ s) :: Vocabulary.lines_from EmptyString rest.
Proof.
  induction s as [|c s IH]; intros cur rest Hs.
  - cbn. now rewrite app_nil_r.
  - cbn [Vocabulary.has_LF] in Hs. apply orb_false_iff in Hs as [Hc Hs].
    cbn [String.append Vocabulary.lines_from]. rewrite Hc.
    rewrite IH by assumption. now rewrite app_assoc.
Qed.

End StringFacts.

(* ================================================================= *)
(** * The query builder *)

Section QueryBuilder.
Import Js Runtime Wlog Vocabulary.

Local Ltac split_field f :=
  destruct f as [[|? ?]|].

Local Ltac split_number n :=
  let z := fresh "z" in
  destruct n as [[z| |]|]; [destruct (Z.eqb_spec z 0); [subst z|] | | |].

Lemma truthy_number_nonzero (z : Z) : z <> 0 -> truthy_number (Num z) = true.
Proof.
  intros Hz. unfold truthy_number. destruct (Z.eqb_spec z 0); [contradiction | reflexivity].
Qed.

(** The LIMIT/OFFSET step appends [pagination] to whatever was built. *)
Lemma push_clause_pagination (p : LogQueryParams) (query : string) (values : list Sqlite.binding) :
  push_clause (Params.limit p) " LIMIT ?" (push_clause (Params.offset p) " OFFSET ?" id)
    (query, values)
  = (query +:+ fst (pagination p), values ++ snd (pagination p)).
Proof.
  destruct p as [sd ed lv lim off ord].
  unfold pagination, push_clause.
  cbn [Params.limit Params.offset].
  split_number lim; split_number off;
    rewrite ?truthy_number_nonzero by assumption; cbn;
    rewrite ?StringFacts.app_assoc, ?StringFacts.app_nil_r, ?List.app_nil_r, <- ?List.app_assoc;
    reflexivity.
Qed.

(** The three conditional pushes collect [predicates], in order. *)
Lemma push_condition_predicates (p : LogQueryParams) :
  push_condition (Params.level p) "level = ?"
    (push_condition (Params.endDate p) "timestamp <= ?"
       (push_condition (Params.startDate p) "timestamp >= ?" ([], [])))
  = (map fst (predicates p), predicate_values p).
Proof.
  destruct p as [sd ed lv lim off ord].
  unfold predicate_values, predicates, predicate_of, push_condition.
  cbn [Params.startDate Params.endDate Params.level].
  split_field sd; split_field ed; split_field lv; reflexivity.
Qed.

(** The builder's output, in closed form. *)
Lemma buildQueryFromParams_closed_form (p : LogQueryParams) :
  buildQueryFromParams p
  = (ordered_query p +:+ fst (pagination p), predicate_values p ++ snd (pagination p)).
Proof.
  unfold buildQueryFromParams.
  rewrite push_condition_predicates, push_clause_pagination.
  unfold ordered_query, where_clause.
  destruct (map fst (predicates p)) as [|c cs]; cbn [length Nat.ltb Nat.leb];
    rewrite ?StringFacts.app_assoc; reflexivity.
Qed.


(** C10. Falsy values count as absent: [limit = 0] gives no LIMIT
    clause and no binding; a limit with [offset = 0] gives no OFFSET
    clause; an empty [startDate], [endDate] or [level] gives no
    predicate, exactly as if the field were missing. *)
Theorem buildQuery_falsy_is_absent (p : LogQueryParams) :
  (buildQueryFromParams (with_limit (Some (Num 0)) p)
   = (ordered_query p, predicate_values p))
  /\ buildQueryFromParams (with_limit (Some (Num 0)) p)
     = buildQueryFromParams (with_limit None p)
  /\ (forall k, truthy_number k = true ->
      buildQueryFromParams (with_limit (Some k) (with_offset (Some (Num 0)) p))
      = (ordered_query p +:+ " LIMIT ?", predicate_values p ++ [Sqlite.BNumber k])
      /\ buildQueryFromParams (with_limit (Some k) (with_offset (Some (Num 0)) p))
         = buildQueryFromParams (with_limit (Some k) (with_offset None p)))
  /\ buildQueryFromParams (with_startDate (Some EmptyString) p)
     = buildQueryFromParams (with_startDate None p)
  /\ buildQueryFromParams (with_endDate (Some EmptyString) p)
     = buildQueryFromParams (with_endDate None p)
  /\ buildQueryFromParams (with_level (Some EmptyString) p)
     = buildQueryFromParams (with_level None p).
Proof.
  rewrite !buildQueryFromParams_closed_form.
  refine (conj _ (conj _ (conj _ (conj _ (conj _ _))))); try reflexivity.
  - unfold pagination; cbn. now rewrite StringFacts.app_nil_r, List.app_nil_r.
  - intros k Hk. rewrite !buildQueryFromParams_closed_form.
    unfold pagination; cbn. rewrite Hk. split; reflexivity.
Qed.

(** C3. The order of a request is not checked anywhere: the handler
    upper-cases it and the builder pastes it after ORDER BY.  At
    [?order=foo] the statement asks for the direction [FOO], which
    the database then refuses. *)
Theorem order_reaches_statement_unchecked :
  let req := mkRequest "/logs" [("order", "foo")] in
  Params.order (params_of (searchParams req)) = Some "FOO"
  /\ fst (buildQueryFromParams (params_of (searchParams req)))
     = "SELECT * FROM logs ORDER BY timestamp FOO"
  /\ forall w, db_fault (faults w) = false ->
       fetch (constructor Options.empty) req w = Throw SqliteError w.
Proof.
  cbn zeta. refine (conj _ (conj _ _)); try reflexivity.
  intros w Hdb. unfold fetch. cbn -[Sqlite.all].
  unfold bind, Sqlite.all. rewrite Hdb. reflexivity.
Qed.

End QueryBuilder.

(* ================================================================= *)
(** * Pagination *)

Section Pagination.
Import Js Runtime Wlog Vocabulary.

Lemma predicate_of_cases (field : option string) (cond : string) :
  predicate_of field cond = [] \/ exists v, predicate_of field cond = [(cond, v)].
Proof.
  unfold predicate_of. destruct field as [v|]; [|now left].
  destruct (truthy v); [right; now exists v | now left].
Qed.

Lemma or_else_valid_order (p : LogQueryParams) :
  valid_order p ->
  (or_else (Params.order p) "DESC" = "ASC" /\ direction_of p = Sqlite.ASC)
  \/ (or_else (Params.order p) "DESC" = "DESC" /\ direction_of p = Sqlite.DESC).
Proof.
  unfold valid_order, direction_of. intros [H | [H | H]]; rewrite H; cbn; auto.
Qed.

Lemma pagination_cases (p : LogQueryParams) :
  let l := present_number (Params.limit p) in
  let o := present_number (Params.offset p) in
  fst (pagination p)
  = (if l then if o then " LIMIT ? OFFSET ?" else " LIMIT ?" else EmptyString).
Proof.
  unfold pagination, present_number.
  destruct (Params.limit p) as [k|]; [|reflexivity].
  destruct (truthy_number k); [|reflexivity].
  destruct (Params.offset p) as [m|]; [|reflexivity].
  destruct (truthy_number m); reflexivity.
Qed.

(** The database accepts the statement of every request whose order
    is valid, and reads it as [selection]. *)
Lemma prepare_built (p : LogQueryParams) :
  valid_order p ->
  Sqlite.prepare (fst (buildQueryFromParams p)) = Some (selection p).
Proof.
  intros Hord. rewrite buildQueryFromParams_closed_form. cbn [fst].
  rewrite pagination_cases. unfold ordered_query, selection, predicates.
  destruct (or_else_valid_order p Hord) as [[-> ->] | [-> ->]];
    destruct (predicate_of_cases (Params.startDate p) "timestamp >= ?") as [-> | [v1 ->]];
    destruct (predicate_of_cases (Params.endDate p) "timestamp <= ?") as [-> | [v2 ->]];
    destruct (predicate_of_cases (Params.level p) "level = ?") as [-> | [v3 ->]];
    destruct (present_number (Params.limit p));
    destruct (present_number (Params.offset p));
    reflexivity.
Qed.

Lemma apply_conds_predicates (p : LogQueryParams) (rest : list Sqlite.binding)
    (rows : list Row) :
  Sqlite.apply_conds (flat_map condition_of (predicates p)) (predicate_values p ++ rest) rows
  = Some (matching p rows, rest).
Proof.
  unfold matching, predicate_values, predicates.
  destruct (predicate_of_cases (Params.startDate p) "timestamp >= ?") as [-> | [v1 ->]];
    destruct (predicate_of_cases (Params.endDate p) "timestamp <= ?") as [-> | [v2 ->]];
    destruct (predicate_of_cases (Params.level p) "level = ?") as [-> | [v3 ->]];
    cbn; destruct rest; reflexivity.
Qed.

(** With a valid order the database prepares the statement, filters
    and orders the rows, and is left with the pagination. *)
Lemma run_query_paginate (p : LogQueryParams) (w : World) :
  valid_order p -> db_fault (faults w) = false ->
  run_query p w
  = match Sqlite.paginate (selection p) (snd (pagination p)) (filtered_ordered p (logs w)) with
    | Some rows => Ok rows w
    | None => Throw SqliteError w
    end.
Proof.
  intros Hord Hdb. unfold run_query.
  pose proof (prepare_built p Hord) as Hprep.
  rewrite buildQueryFromParams_closed_form in *. cbn [fst] in Hprep.
  unfold Sqlite.all. rewrite Hdb, Hprep. unfold Sqlite.execute.
  cbn [Sqlite.conds Sqlite.dir selection].
  rewrite apply_conds_predicates. reflexivity.
Qed.

Lemma integer_of_in_range (z : Z) :
  - 2 ^ 63 < z < 2 ^ 63 -> Sqlite.integer_of (Num z) = Some z.
Proof.
  intros [Hlo Hhi]. unfold Sqlite.integer_of.
  apply Z.ltb_lt in Hlo, Hhi. now rewrite Hlo, Hhi.
Qed.

Lemma accepted_number (n : number) :
  accepted (Sqlite.BNumber n) = true -> exists z, n = Num z /\ Sqlite.integer_of n = Some z.
Proof.
  unfold accepted. destruct n as [z| |neg]; cbn [Sqlite.integer_of]; try discriminate.
  destruct ((- 2 ^ 63 <? z) && (z <? 2 ^ 63)); [|discriminate]. now exists z.
Qed.

(** A request with a valid order whose pagination the database takes
    gets an answer, and this is the answer. *)
Lemma run_query_valid (p : LogQueryParams) (w : World) :
  valid_order p -> db_fault (faults w) = false -> page_ok p = true ->
  run_query p w
  = Ok (match Params.limit p with
        | Some (Num k) =>
            if k =? 0 then filtered_ordered p (logs w)
            else Sqlite.limit_rows k (skipn (skip_count (Params.offset p))
                                        (filtered_ordered p (logs w)))
        | _ => filtered_ordered p (logs w)
        end) w.
Proof.
  intros Hord Hdb Hok. rewrite run_query_paginate by assumption.
  unfold page_ok in Hok.
  unfold Sqlite.paginate, selection, pagination, present_number in *.
  cbn [Sqlite.has_limit Sqlite.has_offset].
  destruct (Params.limit p) as [k|]; [|reflexivity].
  destruct (truthy_number k) eqn:Hk; cbn [andb].
  - assert (Hka : accepted (Sqlite.BNumber k) = true).
    { destruct (Params.offset p) as [m|]; [destruct (truthy_number m)|];
        cbn [snd forallb] in Hok; now apply andb_prop in Hok as [Hka _]. }
    destruct (accepted_number k Hka) as (zk & -> & Hzk).
    cbn [truthy_number] in Hk. apply negb_true_iff in Hk. rewrite Hk.
    destruct (Params.offset p) as [m|]; [|cbn [snd]; now rewrite Hzk].
    destruct (truthy_number m) eqn:Hm; cbn [snd forallb] in Hok |- *; rewrite Hzk.
    + apply andb_prop in Hok as [_ Hma]. apply andb_prop in Hma as [Hma _].
      destruct (accepted_number m Hma) as (zm & -> & ->). reflexivity.
    + destruct m as [zm| |neg]; try discriminate Hm; [|reflexivity].
      cbn [truthy_number] in Hm. apply negb_false_iff, Z.eqb_eq in Hm. subst zm.
      reflexivity.
  - destruct k as [zk| |neg]; try discriminate Hk; [|reflexivity].
    cbn [truthy_number] in Hk. apply negb_false_iff in Hk. now rewrite Hk.
Qed.

(** A request that binds a limit or an offset the database does not
    take is refused. *)
Lemma run_query_refused (p : LogQueryParams) (w : World) :
  valid_order p -> db_fault (faults w) = false -> page_ok p = false ->
  run_query p w = Throw SqliteError w.
Proof.
  intros Hord Hdb Hok. rewrite run_query_paginate by assumption.
  unfold page_ok in Hok.
  unfold Sqlite.paginate, selection, pagination, present_number, accepted in *.
  cbn [Sqlite.has_limit Sqlite.has_offset].
  destruct (Params.limit p) as [k|]; [|discriminate Hok].
  destruct (truthy_number k); [|discriminate Hok]. cbn [andb].
  destruct (Params.offset p) as [m|].
  - destruct (truthy_number m); cbn [snd forallb] in Hok |- *.
    + destruct (Sqlite.integer_of k); [|reflexivity].
      destruct (Sqlite.integer_of m); [discriminate Hok | reflexivity].
    + destruct (Sqlite.integer_of k); [discriminate Hok | reflexivity].
  - cbn [snd forallb] in Hok |- *.
    destruct (Sqlite.integer_of k); [discriminate Hok | reflexivity].
Qed.

(** X21. Pagination, for a request with a valid order and a database
    that answers.  A limit [k >= 1] returns at most [k] rows; a limit
    [k >= 1] with an offset [m >= 0] returns rows [m .. m+k-1] of the
    filtered and ordered result; an offset without a limit returns the
    whole filtered and ordered result, and the statement is the one
    built without the offset.  The limit and the offset are integers
    below [2^63], as the database wants them; a limit from [2^63] on is
    refused. *)
Theorem pagination_of_results (p : LogQueryParams) (w : World) :
  valid_order p -> db_fault (faults w) = false ->
  let full := filtered_ordered p (logs w) in
  run_query (unpaginated p) w = Ok full w
  /\ (forall k, 0 < k < 2 ^ 63 -> page_ok (with_limit (Some (Num k)) p) = true ->
      exists rows, run_query (with_limit (Some (Num k)) p) w = Ok rows w
                   /\ (length rows <= Z.to_nat k)%nat)
  /\ (forall k m, 0 < k < 2 ^ 63 -> 0 <= m < 2 ^ 63 ->
      run_query (with_limit (Some (Num k)) (with_offset (Some (Num m)) p)) w
      = Ok (rows_from (Z.to_nat m) (Z.to_nat k) full) w)
  /\ (forall m,
      run_query (with_limit None (with_offset m p)) w = Ok full w
      /\ buildQueryFromParams (with_limit None (with_offset m p))
         = buildQueryFromParams (unpaginated p))
  /\ (forall k, 2 ^ 63 <= k ->
      run_query (with_limit (Some (Num k)) (unpaginated p)) w = Throw SqliteError w).
Proof.
  intros Hord Hdb full.
  assert (Hin : forall z, 0 <= z < 2 ^ 63 -> accepted (Sqlite.BNumber (Num z)) = true).
  { intros z Hz. unfold accepted. rewrite integer_of_in_range; [reflexivity | lia]. }
  assert (Hpage : forall k m, 0 < k < 2 ^ 63 -> 0 <= m < 2 ^ 63 ->
            page_ok (with_limit (Some (Num k)) (with_offset (Some (Num m)) p)) = true).
  { intros k m Hk Hm. unfold page_ok, pagination.
    cbn [Params.limit Params.offset with_limit with_offset].
    destruct (truthy_number (Num k)); [|reflexivity].
    destruct (truthy_number (Num m)); cbn [snd forallb];
      rewrite ?Hin by lia; reflexivity. }
  refine (conj _ (conj _ (conj _ (conj _ _)))).
  - now rewrite run_query_valid.
  - intros k Hk Hok. eexists. split.
    + rewrite run_query_valid by assumption.
      cbn [Params.limit with_limit].
      replace (k =? 0) with false by (symmetry; apply Z.eqb_neq; lia).
      reflexivity.
    + unfold Sqlite.limit_rows.
      replace (k <? 0) with false by (symmetry; apply Z.ltb_ge; lia).
      rewrite length_take. lia.
  - intros k m Hk Hm.
    rewrite run_query_valid by (try assumption; now apply Hpage).
    cbn [Params.limit Params.offset with_limit with_offset skip_count].
    replace (k =? 0) with false by (symmetry; apply Z.eqb_neq; lia).
    unfold Sqlite.limit_rows.
    replace (k <? 0) with false by (symmetry; apply Z.ltb_ge; lia).
    reflexivity.
  - intros m. split.
    + now rewrite run_query_valid.
    + rewrite !buildQueryFromParams_closed_form. reflexivity.
  - intros k Hk. apply run_query_refused; try assumption.
    unfold page_ok, pagination, accepted, Sqlite.integer_of.
    cbn [Params.limit Params.offset with_limit with_offset unpaginated truthy_number].
    replace (k =? 0) with false by (symmetry; apply Z.eqb_neq; lia).
    cbn [negb snd forallb].
    replace (k <? 2 ^ 63) with false by (symmetry; apply Z.ltb_ge; lia).
    now rewrite andb_false_r.
Qed.

End Pagination.

(* ================================================================= *)
(** * [JSON.parse] after [JSON.stringify] *)

Section JsonRoundTrip.
Import Js Json Runtime Wlog Vocabulary.

Lemma prepend_cons c s rest r :
  r = Some (s, rest) -> prepend (String c EmptyString) r = Some (String c s, rest).
Proof. intros ->. reflexivity. Qed.

Lemma parse_chars_quote_chars (s rest : string) :
  parse_chars (quote_chars s +:+ String DQ rest) = Some (s, rest).
Proof.
  induction s as [|c s IH]; [reflexivity|].
  cbn [quote_chars]. rewrite StringFacts.app_assoc.
  destruct c as [[] [] [] [] [] [] [] []]; simpl; rewrite IH; reflexivity.
Qed.

Lemma stringify_entry (e : LogEntry) (rest : string) :
  stringify gap (entry_value e) +:+ rest = entry_text e rest.
Proof.
  unfold entry_text, member_text, entry_value. cbn [stringify map fst snd join]. unfold quote, gap, nl.
  rewrite !StringFacts.app_assoc. simpl. rewrite !StringFacts.app_assoc. simpl.
  reflexivity.
Qed.

Lemma parse_value_entry (fuel : nat) (e : LogEntry) (rest : string) :
  parse_value (5 + fuel) (nl +:+ gap +:+ entry_text e rest) = Some (entry_value e, rest).
Proof.
  unfold entry_text, member_text, entry_value.
  simpl. rewrite parse_chars_quote_chars.
  simpl. rewrite parse_chars_quote_chars.
  simpl. rewrite parse_chars_quote_chars.
  simpl. reflexivity.
Qed.

Lemma join_items (e : LogEntry) (es : list LogEntry) (rest : string) :
  nl +:+ gap +:+ join ("," +:+ nl +:+ gap) (map (stringify gap) (map entry_value (e :: es)))
    +:+ nl +:+ "]" +:+ rest
  = items_text e es rest.
Proof.
  revert e. induction es as [|e' es IH]; intros e.
  - cbn [map join items_text]. now rewrite stringify_entry.
  - cbn [items_text]. rewrite <- IH.
    change (map (stringify gap) (map entry_value (e :: e' :: es)))
      with (stringify gap (entry_value e)
              :: map (stringify gap) (map entry_value (e' :: es))).
    cbn [join]. cbn [map].
    rewrite !StringFacts.app_assoc. rewrite stringify_entry.
    reflexivity.
Qed.

Lemma stringify_array (e : LogEntry) (es : list LogEntry) :
  JSON_stringify (JArray (map entry_value (e :: es))) = "[" +:+ items_text e es EmptyString.
Proof.
  rewrite <- join_items. unfold JSON_stringify. cbn [map stringify].
  simpl. rewrite !StringFacts.app_assoc. reflexivity.
Qed.

Lemma parse_items_entries (es : list LogEntry) :
  forall (e : LogEntry) (acc : list value) (fuel : nat) (rest : string),
    parse_items (length es + 6 + fuel) (items_text e es rest) acc
    = Some (JArray (rev acc ++ map entry_value (e :: es)), rest).
Proof.
  induction es as [|e' es IH]; intros e acc fuel rest.
  - cbn [length items_text Nat.add parse_items].
    rewrite (parse_value_entry fuel). simpl. reflexivity.
  - cbn [length items_text]. 
    replace (S (length es) + 6 + fuel)%nat with (S (5 + (length es + 1 + fuel)))%nat by lia.
    cbn [parse_items]. rewrite parse_value_entry.
    cbn [skip_ws is_ws String.append].
    replace (5 + (length es + 1 + fuel))%nat with (length es + 6 + fuel)%nat by lia.
    rewrite IH. cbn [rev]. now rewrite <- List.app_assoc.
Qed.

Lemma length_entry_text (e : LogEntry) (rest : string) :
  (String.length rest + 6 <= String.length (entry_text e rest))%nat.
Proof.
  unfold entry_text, member_text. simpl.
  rewrite !StringFacts.length_app. simpl.
  rewrite !StringFacts.length_app. simpl.
  rewrite !StringFacts.length_app. simpl. lia.
Qed.

Lemma length_items_text (es : list LogEntry) :
  forall e rest, (length es + 6 <= String.length (items_text e es rest))%nat.
Proof.
  induction es as [|e' es IH]; intros e rest; cbn [items_text length].
  - simpl. pose proof (length_entry_text e (nl +:+ "]" +:+ rest)). lia.
  - simpl. pose proof (length_entry_text e ("," +:+ items_text e' es rest)) as H.
    simpl in H. specialize (IH e' rest). lia.
Qed.

(** [JSON.parse] reads back the array [JSON.stringify] wrote. *)
Lemma JSON_parse_stringify_entries (e : LogEntry) (es : list LogEntry) :
  JSON_parse (JSON_stringify (JArray (map entry_value (e :: es))))
  = Some (JArray (map entry_value (e :: es))).
Proof.
  rewrite stringify_array. unfold JSON_parse.
  pose proof (length_items_text es e EmptyString) as Hlen.
  cbn [String.append String.length].
  replace (S (S (String.length (items_text e es EmptyString))))
    with (S (length es + 6 + (S (String.length (items_text e es EmptyString)) - (length es + 6))))%nat
    by lia.
  cbn [parse_value skip_ws is_ws].
  assert (Hws : skip_ws (items_text e es EmptyString)
                = String "{" (match skip_ws (items_text e es EmptyString) with
                             | String _ r => r | EmptyString => EmptyString end)).
  { destruct es; reflexivity. }
  rewrite Hws.
  rewrite parse_items_entries. reflexivity.
Qed.

End JsonRoundTrip.

(* ================================================================= *)
(** * The file sink *)

Section FileSink.
Import Js Json Runtime Wlog Vocabulary.

Variable config : Config.

Lemma writeToFile_attempt (entry : LogEntry) :
  writeToFile config entry
  = try_catch (attempt config entry)
      (fun error => console_call console_error "Failed to write to log file:" (Some error)).
Proof. reflexivity. Qed.

Lemma same_outside_fs_refl (w : World) : same_outside_fs w w.
Proof. repeat split. Qed.

Lemma same_outside_fs_trans (w1 w2 w3 : World) :
  same_outside_fs w1 w2 -> same_outside_fs w2 w3 -> same_outside_fs w1 w3.
Proof.
  unfold same_outside_fs.
  intros (H1 & H2 & H3 & H4 & H5) (G1 & G2 & G3 & G4 & G5).
  repeat split; congruence.
Qed.

Lemma quiet_ret {A} (a : A) : quiet (ret a).
Proof. intros w. split; [reflexivity | apply same_outside_fs_refl]. Qed.

Lemma quiet_throw {A} (e : Error) : quiet (@throw A e).
Proof. intros w. split; [reflexivity | apply same_outside_fs_refl]. Qed.

Lemma quiet_bind {A B} (m : M A) (k : A -> M B) :
  quiet m -> (forall a, quiet (k a)) -> quiet (bind m k).
Proof.
  intros Hm Hk w. unfold bind.
  specialize (Hm w). destruct (m w) as [a w1 | e w1]; cbn in *; [|exact Hm].
  destruct Hm as [Hf Ho]. specialize (Hk a w1). destruct Hk as [Hf' Ho'].
  split; [congruence | eapply same_outside_fs_trans; eassumption].
Qed.

Lemma quiet_existsSync (p : string) : quiet (existsSync p).
Proof. intros w. split; [reflexivity | apply same_outside_fs_refl]. Qed.

Lemma quiet_readFileSync (p : string) : quiet (readFileSync p).
Proof.
  intros w. unfold readFileSync.
  destruct (read_fault (faults w)); [|destruct (files w !! p)];
    (split; [reflexivity | apply same_outside_fs_refl]).
Qed.

Lemma quiet_mkdirSync (p : string) : quiet (mkdirSync p).
Proof.
  intros w. unfold mkdirSync.
  destruct (mkdir_fault (faults w)); [|destruct (existsb _ _)];
    (split; [reflexivity | repeat split]).
Qed.

Lemma quiet_ensureDirectoryExists (p : string) : quiet (ensureDirectoryExists p).
Proof.
  unfold ensureDirectoryExists. apply quiet_bind; [apply quiet_existsSync|].
  intros found. unfold when. destruct (negb found); [apply quiet_mkdirSync | apply quiet_ret].
Qed.

Lemma quiet_render (entry : LogEntry) (content : string) :
  quiet (render config entry content).
Proof.
  unfold render. destruct (fileFormat config); try apply quiet_ret.
  apply quiet_bind.
  - destruct (truthy content); [|apply quiet_ret].
    unfold parse. destruct (JSON_parse content); [apply quiet_ret | apply quiet_throw].
  - intros logs. apply quiet_bind; [|intros; apply quiet_ret].
    unfold push. destruct logs; try apply quiet_throw. apply quiet_ret.
Qed.

Lemma written_or_untouched_bind {A B} (p : string) (m : M A) (k : A -> M B) :
  quiet m -> (forall a w, written_or_untouched p w (k a w)) ->
  forall w, written_or_untouched p w (bind m k w).
Proof.
  intros Hm Hk w. unfold bind.
  destruct (Hm w) as [Hf Ho]. destruct (m w) as [a w1 | e w1]; cbn in *; [|now split].
  specialize (Hk a w1). destruct (k a w1) as [b w2 | e w2]; cbn in *.
  - destruct Hk as [[c Hc] Ho']. split.
    + exists c. now rewrite Hc, Hf.
    + eapply same_outside_fs_trans; eassumption.
  - destruct Hk as [Hf' Ho']. split; [congruence|].
    eapply same_outside_fs_trans; eassumption.
Qed.

Lemma written_or_untouched_writeFileSync (p content : string) (w : World) :
  written_or_untouched p w (writeFileSync p content w).
Proof.
  unfold writeFileSync.
  destruct (write_fault (faults w)); [split; [reflexivity | apply same_outside_fs_refl]|].
  destruct (bool_decide (p ∈ dirs w)); [split; [reflexivity | apply same_outside_fs_refl]|].
  destruct (bool_decide (dirname p ∈ dirs w)).
  - split; [now exists content | repeat split].
  - destruct (existsb _ _); (split; [reflexivity | apply same_outside_fs_refl]).
Qed.

(** The guarded part writes the log file and nothing else, or throws
    and leaves every file as it was. *)
Lemma attempt_written_or_untouched (entry : LogEntry) (w : World) :
  written_or_untouched (getFullFilePath config) w (attempt config entry w).
Proof.
  unfold attempt.
  apply written_or_untouched_bind; [apply quiet_ensureDirectoryExists|]. intros _.
  apply written_or_untouched_bind; [apply quiet_existsSync|]. intros found.
  apply written_or_untouched_bind.
  { destruct found; [apply quiet_readFileSync | apply quiet_ret]. }
  intros content.
  apply written_or_untouched_bind; [apply quiet_render|]. intros newContent.
  apply written_or_untouched_writeFileSync.
Qed.

(** The file sink never throws: it writes the file, or it reports the
    failure on the error channel and leaves every file as it was.  The
    table and the clock are untouched either way. *)
Lemma writeToFile_contains_failures (entry : LogEntry) (w : World) :
  exists w', writeToFile config entry w = Ok tt w'
    /\ logs w' = logs w /\ next_id w' = next_id w /\ ticks w' = ticks w
    /\ faults w' = faults w
    /\ (((exists c, files w' = <[getFullFilePath config := c]> (files w))
         /\ console w' = console w)
        \/ (files w' = files w
            /\ exists e, console w' = console w ++ [failure_report e])).
Proof.
  rewrite writeToFile_attempt. unfold try_catch.
  pose proof (attempt_written_or_untouched entry w) as H.
  destruct (attempt config entry w) as [[] w1 | e w1]; cbn in H.
  - destruct H as [Hc (H1 & H2 & H3 & H4 & H5)].
    exists w1. repeat split; try assumption. left. now split.
  - destruct H as [Hf (H1 & H2 & H3 & H4 & H5)].
    eexists. split; [reflexivity|]. cbn.
    repeat split; try assumption. right. split; [assumption|].
    exists e. now rewrite H3.
Qed.

(** ** What the sink did, and when it fails *)

Lemma render_world (entry : LogEntry) (content : string) (w : World) :
  world_of (render config entry content w) = w.
Proof.
  unfold render. destruct (fileFormat config); try reflexivity.
  unfold bind, parse, push, ret, throw.
  destruct (truthy content); [destruct (JSON_parse content) as [[]|]|]; reflexivity.
Qed.

(** Rendering and writing: the write is the last thing done, and a
    throw leaves the world as it was. *)
Lemma render_then_write (entry : LogEntry) (content : string) (w : World) :
  let p := getFullFilePath config in
  match bind (render config entry content) (writeFileSync p) w with
  | Ok _ w' =>
      write_fault (faults w) = false
      /\ exists c, w' = with_fs (<[p := c]> (files w)) (dirs w) (WriteFile p c) w
  | Throw _ w' => w' = w
  end.
Proof.
  cbn zeta. unfold bind. pose proof (render_world entry content w) as Hw.
  destruct (render config entry content w) as [c w1 | e w1]; cbn [world_of] in Hw; subst w1;
    [|reflexivity].
  unfold writeFileSync. destruct (write_fault (faults w)); [reflexivity|].
  destruct (bool_decide _); [reflexivity|].
  destruct (bool_decide _); [|now destruct (existsb _ _)].
  split; [reflexivity | now exists c].
Qed.

(** The guarded part once the directory is there. *)
Lemma read_render_write (entry : LogEntry) (w : World) :
  let p := getFullFilePath config in
  match bind (existsSync p) (fun found =>
        bind (if found then readFileSync p else ret EmptyString) (fun content =>
        bind (render config entry content) (fun newContent =>
        writeFileSync p newContent))) w with
  | Ok _ w' =>
      write_fault (faults w) = false
      /\ (read_fault (faults w) = true -> exists_at w p = false)
      /\ exists c, w' = with_fs (<[p := c]> (files w)) (dirs w) (WriteFile p c) w
  | Throw _ w' => w' = w
  end.
Proof.
  cbn zeta. unfold bind at 1. unfold existsSync.
  destruct (exists_at w (getFullFilePath config)) eqn:Hex.
  - unfold bind at 1. unfold readFileSync.
    destruct (read_fault (faults w)) eqn:Hr; [reflexivity|].
    destruct (files w !! getFullFilePath config) as [content|]; [|reflexivity].
    pose proof (render_then_write entry content w) as H. cbn zeta in H.
    destruct (bind _ _ w) as [[] w' | e w']; [|exact H].
    destruct H as [Hw Hc]. split; [exact Hw|]. split; [discriminate | exact Hc].
  - unfold bind at 1. unfold ret at 1.
    pose proof (render_then_write entry EmptyString w) as H. cbn zeta in H.
    destruct (bind _ _ w) as [[] w' | e w']; [|exact H].
    destruct H as [Hw Hc]. split; [exact Hw|]. split; [reflexivity | exact Hc].
Qed.

(** The guarded part: it may make the directory of the log file; then
    it writes the log file as the last thing it does, none of its host
    calls having failed, or it throws without having written. *)
Lemma attempt_outcome (entry : LogEntry) (w : World) :
  let p := getFullFilePath config in
  exists made,
    (made = [] \/ made = [Mkdir (dirname p)])
    /\ match attempt config entry w with
       | Ok _ w' =>
           ~ file_failure config w
           /\ exists c, files w' = <[p := c]> (files w)
                        /\ fs_ops w' = fs_ops w ++ made ++ [WriteFile p c]
       | Throw _ w' => files w' = files w /\ fs_ops w' = fs_ops w ++ made
       end.
Proof.
  cbn zeta. unfold attempt. unfold bind at 1.
  unfold ensureDirectoryExists, bind at 1, existsSync at 1.
  destruct (exists_at w (dirname (getFullFilePath config))) eqn:Hdir; cbn [negb when].
  - exists []. split; [now left|]. unfold ret at 1.
    pose proof (read_render_write entry w) as H. cbn zeta in H.
    destruct (bind _ _ w) as [[] w' | e w'].
    + destruct H as (Hw & Hr & c & ->). split.
      * intros [Hf | [[Hf Hex] | [_ Hex]]]; [congruence | | congruence].
        rewrite (Hr Hf) in Hex. discriminate Hex.
      * exists c. split; reflexivity.
    + subst w'. split; [reflexivity | now rewrite List.app_nil_r].
  - unfold mkdirSync.
    destruct (mkdir_fault (faults w)) eqn:Hm.
    { exists []. split; [now left|]. split; [reflexivity | now rewrite List.app_nil_r]. }
    destruct (existsb _ _).
    { exists []. split; [now left|]. split; [reflexivity | now rewrite List.app_nil_r]. }
    exists [Mkdir (dirname (getFullFilePath config))]. split; [now right|].
    set (w1 := with_fs _ _ _ w).
    pose proof (read_render_write entry w1) as H. cbn zeta in H.
    destruct (bind _ _ w1) as [[] w' | e w'].
    + destruct H as (Hw & Hr & c & ->). split.
      * unfold w1 in Hw, Hr. cbn [faults files dirs with_fs] in Hw, Hr.
        intros [Hf | [[Hf Hex] | [Hf _]]]; [congruence | | congruence].
        specialize (Hr Hf). unfold exists_at in Hr, Hex. cbn [files dirs with_fs] in Hr.
        apply orb_false_iff in Hr as [Hr1 Hr2].
        apply orb_true_iff in Hex as [Hex | Hex]; [congruence|].
        apply bool_decide_eq_true_1 in Hex. apply bool_decide_eq_false_1 in Hr2.
        apply Hr2. now apply elem_of_union_r.
      * exists c. split; [reflexivity|]. unfold w1. cbn [fs_ops with_fs].
        now rewrite <- List.app_assoc.
    + subst w'. split; reflexivity.
Qed.

(** The sink, with what it did to the file system: the log file was
    written, no host call having failed and nothing being reported; or
    nothing was written and the failure is reported. *)
Lemma writeToFile_outcome (entry : LogEntry) (w : World) :
  let p := getFullFilePath config in
  exists w' made,
    writeToFile config entry w = Ok tt w'
    /\ (made = [] \/ made = [Mkdir (dirname p)])
    /\ ((console w' = console w
         /\ ~ file_failure config w
         /\ exists c, files w' = <[p := c]> (files w)
                      /\ fs_ops w' = fs_ops w ++ made ++ [WriteFile p c])
        \/ (files w' = files w /\ fs_ops w' = fs_ops w ++ made
            /\ exists e, console w' = console w ++ [failure_report e])).
Proof.
  cbn zeta. rewrite writeToFile_attempt. unfold try_catch.
  destruct (attempt_outcome entry w) as (made & Hmade & H).
  pose proof (attempt_written_or_untouched entry w) as Hsame.
  destruct (attempt config entry w) as [[] w1 | e w1]; cbn in Hsame.
  - destruct H as [Hno Hc]. destruct Hsame as [_ (_ & _ & Hcons & _)].
    exists w1, made. split; [reflexivity|]. split; [exact Hmade|]. left. auto.
  - destruct H as [Hf Hops]. destruct Hsame as [_ (_ & _ & Hcons & _)].
    eexists _, made. split; [reflexivity|]. split; [exact Hmade|]. right. cbn.
    split; [exact Hf|]. split; [exact Hops|]. exists e. now rewrite Hcons.
Qed.

(** ** When the file can be written *)

Lemma writable_frame (w w' : World) :
  faults w' = faults w -> dirs w' = dirs w -> writable config w -> writable config w'.
Proof.
  unfold writable. intros -> ->. tauto.
Qed.

Lemma writable_put_file (content : string) (w : World) :
  writable config w -> writable config (put_file config content w).
Proof. now apply writable_frame. Qed.

Lemma content_of_put_file (content : string) (w : World) :
  content_of (put_file config content w) (getFullFilePath config) = content.
Proof.
  unfold content_of, put_file. cbn [files with_fs]. now rewrite lookup_insert_eq.
Qed.

Lemma writeFileSync_writable (content : string) (w : World) :
  writable config w ->
  writeFileSync (getFullFilePath config) content w = Ok tt (put_file config content w).
Proof.
  intros (Hm & Hr & Hw & Hdir & Hnd). unfold writeFileSync.
  rewrite Hw, (bool_decide_eq_false_2 _ Hnd), (bool_decide_eq_true_2 _ Hdir).
  reflexivity.
Qed.

(** With the directory in place, the guarded part reads the content of
    the file, renders the new content and writes it. *)
Lemma attempt_writable (entry : LogEntry) (w : World) :
  writable config w ->
  attempt config entry w
  = bind (render config entry (content_of w (getFullFilePath config)))
      (writeFileSync (getFullFilePath config)) w.
Proof.
  intros (Hm & Hr & Hw & Hdir & Hnd).
  unfold attempt, ensureDirectoryExists.
  unfold bind at 1 2. unfold existsSync at 1. unfold exists_at.
  rewrite (bool_decide_eq_true_2 _ Hdir), orb_true_r. cbn [negb when ret].
  unfold bind at 1. unfold existsSync, exists_at.
  rewrite (bool_decide_eq_false_2 _ Hnd), orb_false_r.
  unfold content_of.
  destruct (files w !! getFullFilePath config) as [c|] eqn:Hc.
  - rewrite bool_decide_eq_true_2 by (now exists c).
    unfold bind at 1, readFileSync. now rewrite Hr, Hc.
  - rewrite bool_decide_eq_false_2 by (intros [c Hc']; congruence). reflexivity.
Qed.

(** A CSV write succeeds and appends one line, after the header when
    the file was absent or empty. *)
Lemma writeToFile_csv (entry : LogEntry) (w : World) :
  fileFormat config = CSV -> writable config w ->
  writeToFile config entry w
  = Ok tt (put_file config (csv_step (content_of w (getFullFilePath config)) entry) w).
Proof.
  intros Hfmt Hwr. rewrite writeToFile_attempt. unfold try_catch.
  rewrite attempt_writable by assumption.
  unfold render. rewrite Hfmt. unfold bind, ret.
  now rewrite writeFileSync_writable.
Qed.

(** A JSON write on an absent or empty file, or on a file holding the
    array of the entries written so far, succeeds and leaves the array
    with the new entry at its end. *)
Lemma writeToFile_json (done : list LogEntry) (entry : LogEntry) (w : World) :
  fileFormat config = JSON -> writable config w ->
  content_of w (getFullFilePath config)
  = match done with
    | [] => EmptyString
    | _ => Json.JSON_stringify (entries_array done)
    end ->
  writeToFile config entry w
  = Ok tt (put_file config (Json.JSON_stringify (entries_array (done ++ [entry]))) w).
Proof.
  intros Hfmt Hwr Hcontent. rewrite writeToFile_attempt. unfold try_catch.
  rewrite attempt_writable by assumption.
  unfold render. rewrite Hfmt, Hcontent.
  destruct done as [|e es].
  - cbn [truthy]. cbv [bind push ret]. cbn [app].
    now rewrite writeFileSync_writable.
  - assert (Htruthy : truthy (Json.JSON_stringify (entries_array (e :: es))) = true).
    { unfold entries_array. now rewrite stringify_array. }
    rewrite Htruthy. unfold parse, entries_array.
    rewrite JSON_parse_stringify_entries.
    cbv [bind push ret]. unfold entries_array. rewrite map_app. cbn [map].
    now rewrite writeFileSync_writable.
Qed.

(** ** Runs of writes *)

Lemma write_all_json (es : list LogEntry) :
  forall (done : list LogEntry) (w : World),
    fileFormat config = JSON -> writable config w ->
    content_of w (getFullFilePath config)
    = match done with
      | [] => EmptyString
      | _ => Json.JSON_stringify (entries_array done)
      end ->
    exists w',
      write_all config es w = Ok tt w'
      /\ writable config w'
      /\ (es <> [] ->
          files w' !! getFullFilePath config
          = Some (Json.JSON_stringify (entries_array (done ++ es)))).
Proof.
  induction es as [|e es IH]; intros done w Hfmt Hwr Hcontent.
  - exists w. split; [reflexivity|]. split; [assumption | congruence].
  - cbn [write_all]. unfold bind.
    rewrite (writeToFile_json done e w Hfmt Hwr Hcontent).
    set (w1 := put_file config (Json.JSON_stringify (entries_array (done ++ [e]))) w).
    destruct (IH (done ++ [e]) w1 Hfmt) as (w' & Hrun & Hwr' & Hfile).
    { now apply writable_put_file. }
    { unfold w1. rewrite content_of_put_file. now destruct done. }
    exists w'. rewrite <- List.app_assoc in Hfile. cbn [app] in Hfile.
    split; [assumption|]. split; [assumption|]. intros _.
    destruct es as [|e' es']; [|apply Hfile; congruence].
    cbn [write_all] in Hrun. injection Hrun as <-.
    unfold w1, put_file. cbn [files with_fs]. now rewrite lookup_insert_eq.
Qed.


End FileSink.

(* ================================================================= *)
(** * The facade *)

Section Facade.
Import Js Runtime Wlog Vocabulary.

Variable host : Host.
Variable config : Config.

Lemma facade_emit (s : Severity) (message : string) :
  facade host config s message = emit host config s message.
Proof. destruct s; reflexivity. Qed.

(** A call on a database that accepts the insert: the row, the
    console line, and then the file sink. *)
Lemma facade_run (s : Severity) (message : string) (w : World) :
  db_fault (faults w) = false ->
  facade host config s message w
  = if logToFile config
    then writeToFile config (file_entry host config s message w)
           (with_tick (after_console host config s message w))
    else Ok tt (after_console host config s message w).
Proof.
  intros Hdb. rewrite facade_emit.
  unfold emit, bind, new_Date, Sqlite.run, after_console, file_entry, file_instant.
  cbn [faults with_tick]. rewrite Hdb. rewrite String.eqb_refl.
  cbn [map Sqlite.text_of].
  unfold when, getTimestamp, formatLogEntry, bind, new_Date, ret, console_call.
  destruct (logToConsole config), (logToFile config); reflexivity.
Qed.

(** A call on a database that refuses the insert: the failure goes to
    the caller, and nothing else happens. *)
Lemma facade_locked (s : Severity) (message : string) (w : World) :
  db_fault (faults w) = true ->
  facade host config s message w = Throw StoreWriteError (with_tick w).
Proof.
  intros Hdb. rewrite facade_emit.
  unfold emit, bind, new_Date, Sqlite.run.
  cbn [faults with_tick]. rewrite Hdb. reflexivity.
Qed.

Lemma after_console_frame (s : Severity) (message : string) (w : World) :
  let w' := with_tick (after_console host config s message w) in
  files w' = files w /\ dirs w' = dirs w /\ fs_ops w' = fs_ops w /\ faults w' = faults w
  /\ ticks w' = (if logToConsole config then S (S (S (ticks w))) else S (S (ticks w))).
Proof.
  unfold after_console, after_store. destruct (logToConsole config); cbn; auto.
Qed.

Lemma after_console_logs (s : Severity) (message : string) (w : World) :
  logs (after_console host config s message w) = logs w ++ [stored_row host s message w]
  /\ console (after_console host config s message w)
     = console w ++ (if logToConsole config then [console_line host s message w] else []).
Proof.
  unfold after_console, after_store. destruct (logToConsole config); cbn; split;
    try reflexivity. now rewrite List.app_nil_r.
Qed.

(** What a call leaves behind on a database that accepts the insert:
    the row, the console line, and a log file written, or untouched
    with the failure reported. *)
Lemma facade_outcome (s : Severity) (message : string) (w : World) :
  db_fault (faults w) = false ->
  exists w' report,
    facade host config s message w = Ok tt w'
    /\ logs w' = logs w ++ [stored_row host s message w]
    /\ console w'
       = console w
           ++ (if logToConsole config then [console_line host s message w] else [])
           ++ report
    /\ ((report = []
         /\ (if logToFile config
             then exists c, files w' = <[getFullFilePath config := c]> (files w)
             else files w' = files w))
        \/ (logToFile config = true /\ files w' = files w
            /\ exists e, report = [failure_report e])).
Proof.
  intros Hdb. rewrite facade_run by assumption.
  destruct (after_console_logs s message w) as [Hlogs Hconsole].
  destruct (after_console_frame s message w) as (Hf & _).
  destruct (logToFile config).
  - set (w2 := with_tick (after_console host config s message w)) in *.
    destruct (writeToFile_contains_failures config
                (file_entry host config s message w) w2)
      as (w' & Hrun & Hl & _ & _ & _ & Hcases).
    assert (Hconsole2 : console w2
                        = console w ++ (if logToConsole config
                                        then [console_line host s message w] else []))
      by exact Hconsole.
    assert (Hlogs2 : logs w2 = logs w ++ [stored_row host s message w]) by exact Hlogs.
    destruct Hcases as [[[c Hc] Hcons] | [Hfiles [e He]]].
    + exists w', []. split; [assumption|]. split; [congruence|].
      split; [rewrite List.app_nil_r; congruence|].
      left. split; [reflexivity|]. exists c. now rewrite Hc, Hf.
    + exists w', [failure_report e]. split; [assumption|]. split; [congruence|].
      split; [rewrite He, Hconsole2; now rewrite <- List.app_assoc|].
      right. split; [reflexivity|]. split; [congruence | now exists e].
  - exists (after_console host config s message w), [].
    split; [reflexivity|]. split; [assumption|].
    split; [now rewrite List.app_nil_r|].
    left. split; [reflexivity|].
    unfold after_console, after_store. now destruct (logToConsole config).
Qed.


(** C8. With the file off and the console on, a call on a database that
    accepts the insert stores one row, prints one console line and
    leaves the file system alone; and whatever the configuration, the
    call stores its row. *)
Theorem fan_out_without_file (s : Severity) (message : string) (w : World) :
  db_fault (faults w) = false ->
  logs (world_of (facade host config s message w))
  = logs w ++ [stored_row host s message w]
  /\ (logToFile config = false -> logToConsole config = true ->
      exists w',
        facade host config s message w = Ok tt w'
        /\ logs w' = logs w ++ [stored_row host s message w]
        /\ console w' = console w ++ [console_line host s message w]
        /\ fs_ops w' = fs_ops w /\ files w' = files w /\ dirs w' = dirs w).
Proof.
  intros Hdb. split.
  - destruct (facade_outcome s message w Hdb) as (w' & report & Hrun & Hlogs & _).
    now rewrite Hrun.
  - intros Hfile Hcons. rewrite facade_run by assumption. rewrite Hfile.
    eexists. split; [reflexivity|].
    unfold after_console, after_store. rewrite Hcons. cbn.
    repeat (split; [reflexivity|]). reflexivity.
Qed.

(** C9, as the code has it. A call reads the clock once for each
    output: the row stored holds the ISO rendering of the first read,
    the console line the locale rendering of the next one, and the
    entry handed to the file sink the locale rendering of the one after
    that.  They are renderings of one instant when the clock gave the
    same reading each time. *)
Theorem timestamps_are_successive_reads (s : Severity) (message : string) (w : World) :
  db_fault (faults w) = false ->
  let t := ticks w in
  let w' := world_of (facade host config s message w) in
  logs w' = logs w ++ [mkRow (next_id w) (tag s) message (Date.toISOString (clock host t))]
  /\ (logToConsole config = true ->
      exists report,
        console w'
        = console w
            ++ [mkConsoleCall (console_method s)
                  ("[" +:+ toLocaleString host (clock host (S t)) +:+ "] ["
                     +:+ TAG s +:+ "] " +:+ message) None]
            ++ report)
  /\ (logToFile config = true ->
      exists w2,
        facade host config s message w
        = writeToFile config
            (mkLogEntry
               (toLocaleString host
                  (clock host (if logToConsole config then S (S t) else S t)))
               (TAG s) message) w2)
  /\ (clock host (S t) = clock host t -> clock host (S (S t)) = clock host t ->
      store_instant host w = clock host t
      /\ console_instant host w = clock host t
      /\ file_instant host config w = clock host t).
Proof.
  intros Hdb t w'.
  destruct (facade_outcome s message w Hdb) as (w1 & report & Hrun & Hlogs & Hconsole & _).
  subst w'.
  split; [now rewrite Hrun|]. split; [|split].
  - intros Hcons. exists report. rewrite Hrun. cbn [world_of].
    rewrite Hconsole, Hcons. reflexivity.
  - intros Hfile. eexists. rewrite facade_run by assumption. rewrite Hfile. reflexivity.
  - intros H1 H2. unfold store_instant, console_instant, file_instant.
    destruct (logToConsole config); auto.
Qed.

(** ** Runs of calls on a CSV logger *)

Lemma csv_step_truthy (content : string) (entry : LogEntry) :
  truthy (csv_step content entry) = true.
Proof. unfold csv_step. destruct content; reflexivity. Qed.

Lemma csv_steps_append (es : list LogEntry) :
  forall content, truthy content = true ->
    fold_left csv_step es content = content +:+ csv_body es.
Proof.
  induction es as [|e es IH]; intros content Hc; cbn [fold_left csv_body].
  - now rewrite StringFacts.app_nil_r.
  - rewrite IH by apply csv_step_truthy.
    unfold csv_step. rewrite Hc. cbn [negb]. apply StringFacts.app_assoc.
Qed.

Lemma csv_steps_from_empty (e : LogEntry) (es : list LogEntry) :
  fold_left csv_step (e :: es) EmptyString = csv_header +:+ csv_body (e :: es).
Proof.
  cbn [fold_left]. rewrite csv_steps_append by apply csv_step_truthy.
  unfold csv_step. cbn [truthy negb csv_body]. apply StringFacts.app_assoc.
Qed.

Lemma content_of_truthy (w : World) (p content : string) :
  content_of w p = content -> truthy content = true -> files w !! p = Some content.
Proof.
  unfold content_of. destruct (files w !! p); intros <-; [reflexivity | discriminate].
Qed.

Lemma run_calls_csv (calls : list (Severity * string)) :
  forall w : World,
    fileFormat config = CSV -> logToFile config = true ->
    writable config w -> db_fault (faults w) = false ->
    exists w',
      run_calls host config calls w = Ok tt w'
      /\ content_of w' (getFullFilePath config)
         = fold_left csv_step (entries_of_calls host config calls (ticks w))
             (content_of w (getFullFilePath config)).
Proof.
  induction calls as [|[s message] calls IH]; intros w Hfmt Hfile Hwr Hdb.
  - exists w. split; reflexivity.
  - cbn [run_calls entries_of_calls fold_left]. unfold bind.
    rewrite facade_run by assumption. rewrite Hfile.
    destruct (after_console_frame s message w) as (Hf & Hd & _ & Hfl & Ht).
    set (w2 := with_tick (after_console host config s message w)) in *.
    assert (Hwr2 : writable config w2) by (now apply (writable_frame config w)).
    rewrite writeToFile_csv by assumption.
    set (w3 := put_file config _ w2).
    destruct (IH w3 Hfmt Hfile) as (w' & Hrun & Hcontent).
    { now apply writable_put_file. }
    { unfold w3, put_file. cbn [faults with_fs]. now rewrite Hfl. }
    exists w'. split; [assumption|].
    rewrite Hcontent. unfold w3 at 2. rewrite content_of_put_file.
    replace (ticks w3) with (ticks w2) by reflexivity. rewrite Ht.
    replace (content_of w2 (getFullFilePath config))
      with (content_of w (getFullFilePath config))
      by (unfold content_of; now rewrite Hf).
    reflexivity.
Qed.

Lemma entries_of_calls_fields (calls : list (Severity * string)) :
  forall t,
    map (fun e => (level e, message e)) (entries_of_calls host config calls t)
    = map (fun c => (TAG (fst c), snd c)) calls.
Proof.
  induction calls as [|[s m] calls IH]; intros t; [reflexivity|].
  cbn [entries_of_calls map level message fst snd]. now rewrite IH.
Qed.

Lemma csv_body_lines (entries : list LogEntry) :
  csv_body entries = comma_joined_lines entries.
Proof.
  induction entries as [|e es IH]; [reflexivity|].
  cbn [csv_body comma_joined_lines]. unfold csv_line.
  now rewrite IH, !StringFacts.app_assoc.
Qed.

(** C7. However many calls a CSV logger gets, starting without a file:
    the file begins with the line [timestamp,level,message], written
    once, and goes on with one line [<timestamp>,<LEVEL>,<message>] per
    call, in order -- the timestamp being the locale rendering of the
    clock read for the file, the level the upper-case tag of the
    method, the message that of the call. *)
Theorem csv_header_written_once (call : Severity * string) (calls : list (Severity * string))
    (w : World) :
  fileFormat config = CSV -> logToFile config = true ->
  writable config w -> db_fault (faults w) = false ->
  files w !! getFullFilePath config = None ->
  exists w' entries,
    run_calls host config (call :: calls) w = Ok tt w'
    /\ entries = entries_of_calls host config (call :: calls) (ticks w)
    /\ map (fun e => (level e, message e)) entries
       = map (fun c => (TAG (fst c), snd c)) (call :: calls)
    /\ files w' !! getFullFilePath config
       = Some ("timestamp,level,message" +:+ nl +:+ comma_joined_lines entries).
Proof.
  intros Hfmt Hfile Hwr Hdb Habsent.
  destruct (run_calls_csv (call :: calls) w Hfmt Hfile Hwr Hdb) as (w' & Hrun & Hcontent).
  exists w', (entries_of_calls host config (call :: calls) (ticks w)).
  split; [assumption|]. split; [reflexivity|]. split; [apply entries_of_calls_fields|].
  apply content_of_truthy.
  - rewrite Hcontent. unfold content_of at 1. rewrite Habsent.
    destruct call as [s message]. cbn [entries_of_calls].
    rewrite csv_steps_from_empty, csv_body_lines. unfold csv_header.
    now rewrite StringFacts.app_assoc.
  - reflexivity.
Qed.

Lemma run_two_calls (s1 s2 : Severity) (m1 m2 : string) (w : World) :
  run_calls host config [(s1, m1); (s2, m2)] w
  = bind (facade host config s1 m1) (fun _ => facade host config s2 m2) w.
Proof.
  cbn [run_calls]. unfold bind at 1 3.
  destruct (facade host config s1 m1 w); [apply StringFacts.bind_ret_tt | reflexivity].
Qed.

End Facade.

(* ================================================================= *)
(** * The scenarios *)

Section Scenarios.
Import Js Json Runtime Wlog Vocabulary.

(** C2, as the code has it. A logger made with
    [{logToFile: true, filePath: "t", fileFormat: "csv"}] and called
    with [log("a")] then [error("b")] on a fresh file leaves [t.csv]
    with the header, a line ending in [,LOG,a] and a line ending in
    [,ERROR,b] -- the level is written in upper case -- and nothing
    else; the two timestamps render clock reads taken in this order. *)
Theorem csv_scenario (host : Host) (w : World) :
  writable csv_logger w -> db_fault (faults w) = false -> files w !! "t.csv" = None ->
  let t1 := clock host (S (S (ticks w))) in
  let t2 := clock host (S (S (S (S (S (ticks w)))))) in
  exists w' content,
    bind (log host csv_logger "a") (fun _ => error host csv_logger "b") w = Ok tt w'
    /\ files w' !! "t.csv" = Some content
    /\ content = "timestamp,level,message" +:+ nl
                 +:+ toLocaleString host t1 +:+ ",LOG,a" +:+ nl
                 +:+ toLocaleString host t2 +:+ ",ERROR,b" +:+ nl
    /\ (has_LF (toLocaleString host t1) = false ->
        has_LF (toLocaleString host t2) = false ->
        lines content
        = ["timestamp,level,message";
           toLocaleString host t1 +:+ ",LOG,a";
           toLocaleString host t2 +:+ ",ERROR,b"])
    /\ ((forall i j, (i <= j)%nat -> clock host i <= clock host j) -> t1 <= t2).
Proof.
  intros Hwr Hdb Habsent t1 t2.
  destruct (run_calls_csv host csv_logger [(CallLog, "a"); (CallError, "b")] w
              eq_refl eq_refl Hwr Hdb) as (w' & Hrun & Hcontent).
  rewrite run_two_calls in Hrun.
  change (getFullFilePath csv_logger) with "t.csv" in Hcontent.
  exists w', ("timestamp,level,message" +:+ nl
                +:+ toLocaleString host t1 +:+ ",LOG,a" +:+ nl
                +:+ toLocaleString host t2 +:+ ",ERROR,b" +:+ nl).
  split; [exact Hrun|].
  split; [|split; [reflexivity|split]].
  - apply content_of_truthy; [|reflexivity].
    rewrite Hcontent. unfold content_of at 1. rewrite Habsent.
    cbn [entries_of_calls]. rewrite csv_steps_from_empty.
    unfold csv_header, csv_body, csv_line.
    cbn [timestamp level message TAG logToConsole csv_logger constructor nullish
           Options.logToConsole].
    rewrite !StringFacts.app_assoc. cbn [String.append]. reflexivity.
  - intros H1 H2. unfold lines.
    replace ("timestamp,level,message" +:+ nl +:+ toLocaleString host t1 +:+ ",LOG,a" +:+ nl
               +:+ toLocaleString host t2 +:+ ",ERROR,b" +:+ nl)
      with ("timestamp,level,message"
              +:+ String LF ((toLocaleString host t1 +:+ ",LOG,a")
              +:+ String LF ((toLocaleString host t2 +:+ ",ERROR,b")
              +:+ String LF EmptyString)))
      by (rewrite !StringFacts.app_assoc; reflexivity).
    rewrite StringFacts.lines_from_line by reflexivity.
    rewrite StringFacts.lines_from_line
      by (rewrite StringFacts.has_LF_app, H1; reflexivity).
    rewrite StringFacts.lines_from_line
      by (rewrite StringFacts.has_LF_app, H2; reflexivity).
    reflexivity.
  - intros Hmono. apply Hmono. lia.
Qed.

(** ** What a rendering says about the second *)

Lemma toISOString_seconds (t : Date.t) :
  exists prefix,
    Date.toISOString t
    = prefix +:+ (Date.pad 2 (Date.seconds t) +:+ "."
                    +:+ Date.pad 3 (Date.milliseconds t) +:+ "Z").
Proof.
  unfold Date.toISOString, Date.clock_string.
  destruct (Date.civil (Date.day t)) as [[y m] d].
  exists (Date.year_string y +:+ "-" +:+ Date.pad 2 m +:+ "-" +:+ Date.pad 2 d +:+ "T"
            +:+ Date.pad 2 (Date.hours t) +:+ ":" +:+ Date.pad 2 (Date.minutes t) +:+ ":").
  rewrite !StringFacts.app_assoc. reflexivity.
Qed.

Lemma toLocaleString_enUS_seconds (t : Date.t) :
  exists prefix suffix,
    Date.toLocaleString_enUS t = prefix +:+ (Date.pad 2 (Date.seconds t) +:+ suffix)
    /\ String.length suffix = 3%nat.
Proof.
  unfold Date.toLocaleString_enUS, Date.clock_string.
  destruct (Date.civil (Date.day t)) as [[y m] d].
  eexists (Date.decimal m +:+ "/" +:+ Date.decimal d +:+ "/" +:+ Date.decimal y +:+ ", "
             +:+ Date.decimal _ +:+ ":" +:+ Date.pad 2 (Date.minutes t) +:+ ":").
  exists (if Date.hours t <? 12 then " AM" else " PM").
  split; [|now destruct (Date.hours t <? 12)].
  rewrite !StringFacts.app_assoc. reflexivity.
Qed.

(** No instant renders as second [:00] in ISO form and as second [:01]
    in the en-US form. *)
Lemma no_instant_for_both :
  ~ exists t : Date.t,
      Date.toISOString t = "1970-01-01T00:00:00.999Z"
      /\ Date.toLocaleString_enUS t = "1/1/1970, 12:00:01 AM".
Proof.
  intros (t & Hiso & Hloc).
  destruct (toISOString_seconds t) as [p Hp]. rewrite Hp in Hiso.
  destruct (toLocaleString_enUS_seconds t) as (q & sfx & Hq & Hlen). rewrite Hq in Hloc.
  change "1970-01-01T00:00:00.999Z" with ("1970-01-01T00:00:" +:+ "00.999Z") in Hiso.
  change "1/1/1970, 12:00:01 AM" with ("1/1/1970, 12:00:" +:+ "01 AM") in Hloc.
  apply StringFacts.app_inv_length in Hiso as [_ Hiso]; [|reflexivity].
  apply StringFacts.app_inv_length in Hloc as [_ Hloc];
    [|cbn [Date.pad String.append String.length]; now rewrite Hlen].
  cbn [Date.pad String.append] in Hiso, Hloc.
  injection Hiso as _ Hiso _. injection Hloc as _ Hloc _.
  rewrite Hiso in Hloc. discriminate Hloc.
Qed.

(** C9 fails when the clock moves on between two reads of one call:
    the row is stamped 00:00:00.999 and the console line 12:00:01 AM,
    and no instant renders as both. *)
Lemma store_and_console_instants_differ :
  let w' := world_of (log host_1970 console_logger "a" fresh_world) in
  map row_timestamp (logs w') = ["1970-01-01T00:00:00.999Z"]
  /\ map text (console w') = ["[" +:+ "1/1/1970, 12:00:01 AM" +:+ "] [LOG] a"]
  /\ ~ exists t : Date.t,
        Date.toISOString t = "1970-01-01T00:00:00.999Z"
        /\ toLocaleString host_1970 t = "1/1/1970, 12:00:01 AM".
Proof.
  cbn zeta. split; [vm_compute; reflexivity|]. split; [vm_compute; reflexivity|].
  exact no_instant_for_both.
Qed.


(** C2 fails on the case of the level: the first entry line ends in
    [,LOG,a], not in [,log,a]. *)
Lemma csv_level_is_upper_case :
  let r := bind (log host_2024 csv_logger "a") (fun _ => error host_2024 csv_logger "b") fresh_world in
  returns r = true
  /\ option_map lines (files (world_of r) !! "t.csv")
     = Some ["timestamp,level,message";
             "1/1/2024, 12:00:00 PM,LOG,a";
             "1/1/2024, 12:00:02 PM,ERROR,b"]
  /\ ends_with ",log,a" "1/1/2024, 12:00:00 PM,LOG,a" = false
  /\ ends_with ",LOG,a" "1/1/2024, 12:00:00 PM,LOG,a" = true.
Proof. now vm_compute. Qed.

End Scenarios.

(* ================================================================= *)
(** * The theorems at work *)

Section Instances.
Import Js Json Runtime Wlog Vocabulary.

Local Ltac writable_now :=
  unfold writable;
  split; [reflexivity|]; split; [reflexivity|]; split; [reflexivity|];
  split; [vm_compute; reflexivity | vm_compute; intros H; discriminate H].


Lemma csv_scenario_fresh :
  writable csv_logger fresh_world /\ db_fault (faults fresh_world) = false
  /\ files fresh_world !! "t.csv" = None
  /\ exists w' content,
       bind (log host_2024 csv_logger "a") (fun _ => error host_2024 csv_logger "b") fresh_world
       = Ok tt w'
       /\ files w' !! "t.csv" = Some content
       /\ content = "timestamp,level,message" +:+ nl
                    +:+ "1/1/2024, 12:00:00 PM" +:+ ",LOG,a" +:+ nl
                    +:+ "1/1/2024, 12:00:02 PM" +:+ ",ERROR,b" +:+ nl.
Proof.
  assert (Hwr : writable csv_logger fresh_world) by writable_now.
  split; [exact Hwr|]. split; [reflexivity|]. split; [reflexivity|].
  destruct (csv_scenario host_2024 fresh_world Hwr eq_refl eq_refl)
    as (w' & content & Hrun & Hfile & Hcontent & _).
  exists w', content. split; [exact Hrun|]. split; [exact Hfile|].
  rewrite Hcontent. vm_compute. reflexivity.
Defined.

Lemma order_reaches_statement_unchecked_fresh :
  db_fault (faults fresh_world) = false
  /\ fetch (constructor Options.empty) (mkRequest "/logs" [("order", "foo")]) fresh_world
     = Throw SqliteError fresh_world.
Proof.
  split; [reflexivity|].
  apply (proj2 (proj2 order_reaches_statement_unchecked)). reflexivity.
Defined.


Lemma pagination_of_results_one_row :
  let p := Params.mkLogQueryParams None None (Some "log") None None (Some "ASC") in
  valid_order p /\ db_fault (faults one_row) = false
  /\ run_query (unpaginated p) one_row = Ok (logs one_row) one_row
  /\ 0 < 1 < 2 ^ 63 /\ 0 <= 1 < 2 ^ 63
  /\ run_query (with_limit (Some (Num 1)) (with_offset (Some (Num 1)) p)) one_row
     = Ok [] one_row.
Proof.
  cbn zeta.
  assert (Hord : valid_order
                   (Params.mkLogQueryParams None None (Some "log") None None (Some "ASC")))
    by (right; left; reflexivity).
  assert (H1 : 0 < 1 < 2 ^ 63) by (split; reflexivity).
  assert (H2 : 0 <= 1 < 2 ^ 63) by (split; [intros H; discriminate H | reflexivity]).
  split; [exact Hord|]. split; [reflexivity|].
  destruct (pagination_of_results _ one_row Hord eq_refl) as (Hfull & _ & Hpage & _).
  split; [exact Hfull|]. split; [exact H1|]. split; [exact H2|].
  exact (Hpage 1 1 H1 H2).
Defined.


Lemma csv_header_written_once_fresh :
  fileFormat csv_logger = CSV /\ logToFile csv_logger = true
  /\ writable csv_logger fresh_world /\ db_fault (faults fresh_world) = false
  /\ files fresh_world !! getFullFilePath csv_logger = None
  /\ exists w',
       run_calls host_2024 csv_logger [(CallLog, "a"); (CallInfo, "b"); (CallError, "c")] fresh_world
       = Ok tt w'
       /\ files w' !! "t.csv"
          = Some ("timestamp,level,message" +:+ nl
                    +:+ "1/1/2024, 12:00:00 PM,LOG,a" +:+ nl
                    +:+ "1/1/2024, 12:00:02 PM,INFO,b" +:+ nl
                    +:+ "1/1/2024, 12:00:03 PM,ERROR,c" +:+ nl).
Proof.
  assert (Hwr : writable csv_logger fresh_world) by writable_now.
  split; [reflexivity|]. split; [reflexivity|]. split; [exact Hwr|].
  split; [reflexivity|]. split; [reflexivity|].
  destruct (csv_header_written_once host_2024 csv_logger (CallLog, "a")
              [(CallInfo, "b"); (CallError, "c")] fresh_world eq_refl eq_refl Hwr eq_refl eq_refl)
    as (w' & entries & Hrun & -> & _ & Hfile).
  exists w'. split; [exact Hrun|].
  change (getFullFilePath csv_logger) with "t.csv" in Hfile.
  rewrite Hfile. vm_compute. reflexivity.
Defined.

Lemma fan_out_without_file_fresh :
  db_fault (faults fresh_world) = false
  /\ logToFile console_logger = false /\ logToConsole console_logger = true
  /\ exists w',
       facade host_2024 console_logger CallInfo "a" fresh_world = Ok tt w'
       /\ logs w' = logs fresh_world ++ [stored_row host_2024 CallInfo "a" fresh_world]
       /\ console w' = console fresh_world ++ [console_line host_2024 CallInfo "a" fresh_world]
       /\ fs_ops w' = fs_ops fresh_world /\ files w' = files fresh_world /\ dirs w' = dirs fresh_world.
Proof.
  split; [reflexivity|]. split; [reflexivity|]. split; [reflexivity|].
  apply (proj2 (fan_out_without_file host_2024 console_logger CallInfo "a" fresh_world eq_refl));
    reflexivity.
Defined.

Lemma timestamps_are_successive_reads_fresh :
  db_fault (faults fresh_world) = false
  /\ logs (world_of (facade host_1970 console_logger CallLog "a" fresh_world))
     = logs fresh_world
         ++ [mkRow (next_id fresh_world) (tag CallLog) "a"
               (Date.toISOString (clock host_1970 (ticks fresh_world)))].
Proof.
  split; [reflexivity|].
  apply (timestamps_are_successive_reads host_1970 console_logger CallLog "a" fresh_world eq_refl).
Defined.

Lemma buildQuery_falsy_is_absent_limit_five :
  let p := Params.mkLogQueryParams None None (Some "error") None None None in
  truthy_number (Num 5) = true
  /\ buildQueryFromParams (with_limit (Some (Num 5)) (with_offset (Some (Num 0)) p))
     = (ordered_query p +:+ " LIMIT ?", predicate_values p ++ [Sqlite.BNumber (Num 5)]).
Proof.
  cbn zeta. split; [reflexivity|].
  apply (proj1 (proj2 (proj2 (buildQuery_falsy_is_absent
           (Params.mkLogQueryParams None None (Some "error") None None None))))).
  reflexivity.
Defined.

End Instances.

(* ================================================================= *)
(** * More on the query builder *)

Section BuilderBehaviour.
Import Js Runtime Wlog Vocabulary Behaviour.

Lemma placeholders_app (a b : string) :
  placeholders (a +:+ b) = (placeholders a + placeholders b)%nat.
Proof.
  induction a as [|c a IH]; [reflexivity|].
  cbn [String.append placeholders]. rewrite IH. lia.
Qed.

(** X1. The statement has as many [?] as there are bindings, apart from
    those the order brings in: with an order free of [?], every
    placeholder gets exactly one value. *)
Theorem placeholders_match_bindings (p : LogQueryParams) :
  placeholders (fst (buildQueryFromParams p))
  = (length (snd (buildQueryFromParams p))
     + placeholders (or_else (Params.order p) "DESC"))%nat.
Proof.
  rewrite buildQueryFromParams_closed_form. cbn [fst snd].
  unfold ordered_query, predicate_values, predicates.
  rewrite !placeholders_app, length_app, length_map.
  destruct (predicate_of_cases (Params.startDate p) "timestamp >= ?") as [-> | [v1 ->]];
    destruct (predicate_of_cases (Params.endDate p) "timestamp <= ?") as [-> | [v2 ->]];
    destruct (predicate_of_cases (Params.level p) "level = ?") as [-> | [v3 ->]];
    rewrite pagination_cases; unfold pagination, present_number;
    destruct (Params.limit p) as [k|]; try (cbn; lia);
    destruct (truthy_number k); try (cbn; lia);
    destruct (Params.offset p) as [m|]; try (cbn; lia);
    destruct (truthy_number m); cbn; lia.
Qed.

(** X2. The values of the filters and of the pagination never reach the
    text of the statement: two requests with the same fields present
    and the same order get the same text. *)
Theorem statement_text_ignores_values (p q : LogQueryParams) :
  same_shape p q ->
  fst (buildQueryFromParams p) = fst (buildQueryFromParams q).
Proof.
  intros (Hs & He & Hl & Hlim & Hoff & Hord).
  rewrite !buildQueryFromParams_closed_form. cbn [fst].
  rewrite !pagination_cases. cbn zeta. rewrite Hlim, Hoff. f_equal.
  unfold ordered_query. rewrite Hord. do 2 f_equal.
  unfold predicates, predicate_of, present_string in *.
  destruct (Params.startDate p) as [a|], (Params.startDate q) as [a'|];
    cbn in Hs; try rewrite Hs; try rewrite <- Hs;
    destruct (Params.endDate p) as [b|], (Params.endDate q) as [b'|];
    cbn in He; try rewrite He; try rewrite <- He;
    destruct (Params.level p) as [c|], (Params.level q) as [c'|];
    cbn in Hl; try rewrite Hl; try rewrite <- Hl;
    repeat match goal with
           | |- context [truthy ?x] => destruct (truthy x) eqn:?
           end; try discriminate; reflexivity.
Qed.

End BuilderBehaviour.

(* ================================================================= *)
(** * What a query returns *)

Section QueryResults.
Import Js Runtime Wlog Vocabulary Behaviour.

Lemma insert_sorted_Permutation (d : Sqlite.direction) (r : Row) (l : list Row) :
  Permutation (Sqlite.insert_sorted d r l) (r :: l).
Proof.
  induction l as [|x l IH]; cbn [Sqlite.insert_sorted]; [reflexivity|].
  destruct (Sqlite.before d r x); [reflexivity|].
  rewrite IH. apply perm_swap.
Qed.

Lemma order_by_Permutation (d : Sqlite.direction) (l : list Row) :
  Permutation (Sqlite.order_by d l) l.
Proof.
  unfold Sqlite.order_by. induction l as [|x l IH]; cbn [fold_right]; [reflexivity|].
  rewrite insert_sorted_Permutation. now rewrite IH.
Qed.

Lemma before_total (d : Sqlite.direction) (a b : Row) :
  Sqlite.before d a b = false -> Sqlite.before d b a = true.
Proof.
  unfold Sqlite.before. intros H.
  destruct d;
    [destruct (String.leb_total (row_timestamp a) (row_timestamp b))
    |destruct (String.leb_total (row_timestamp b) (row_timestamp a))];
    congruence.
Qed.

Lemma insert_sorted_HdRel (d : Sqlite.direction) (a r : Row) (l : list Row) :
  Sqlite.before d a r = true ->
  HdRel (fun x y => Sqlite.before d x y = true) a l ->
  HdRel (fun x y => Sqlite.before d x y = true) a (Sqlite.insert_sorted d r l).
Proof.
  intros Har Hl. destruct l as [|x l]; cbn [Sqlite.insert_sorted].
  - now constructor.
  - destruct (Sqlite.before d r x); constructor; [assumption|].
    now inversion Hl.
Qed.

Lemma insert_sorted_Sorted (d : Sqlite.direction) (r : Row) (l : list Row) :
  Sorted (fun x y => Sqlite.before d x y = true) l ->
  Sorted (fun x y => Sqlite.before d x y = true) (Sqlite.insert_sorted d r l).
Proof.
  induction 1 as [|x l Hs IH Hhd]; cbn [Sqlite.insert_sorted].
  - repeat constructor.
  - destruct (Sqlite.before d r x) eqn:Hrx.
    + constructor; [now constructor | now constructor].
    + constructor; [exact IH|].
      apply insert_sorted_HdRel; [now apply before_total | assumption].
Qed.

Lemma order_by_Sorted (d : Sqlite.direction) (l : list Row) :
  Sorted (fun x y => Sqlite.before d x y = true) (Sqlite.order_by d l).
Proof.
  unfold Sqlite.order_by. induction l as [|x l IH]; cbn [fold_right]; [constructor|].
  now apply insert_sorted_Sorted.
Qed.

Lemma filter_twice {A} (f g : A -> bool) (l : list A) :
  List.filter f (List.filter g l) = List.filter (fun x => g x && f x) l.
Proof.
  induction l as [|x l IH]; [reflexivity|]. cbn [List.filter].
  destruct (g x); cbn [List.filter andb]; [destruct (f x)|]; now rewrite IH.
Qed.

Lemma filter_all {A} (f : A -> bool) (l : list A) :
  (forall x, f x = true) -> List.filter f l = l.
Proof.
  intros H. induction l as [|x l IH]; [reflexivity|]. cbn [List.filter].
  now rewrite H, IH.
Qed.

(** The rows the WHERE clause of a request keeps are those that pass
    its filters. *)
Lemma matching_satisfies (p : LogQueryParams) (rows : list Row) :
  matching p rows = List.filter (satisfies p) rows.
Proof.
  unfold matching, satisfies, predicates, predicate_of.
  destruct (Params.startDate p) as [[|a a']|], (Params.endDate p) as [[|b b']|],
    (Params.level p) as [[|c c']|];
    cbn [app fold_left truthy];
    unfold condition_of; cbn [fst snd];
    repeat match goal with
           | |- context [Sqlite.words ?s] =>
               let w := eval vm_compute in (Sqlite.words s) in
               change (Sqlite.words s) with w
           end;
    cbv beta iota;
    repeat match goal with
           | |- context [Sqlite.parse_cond ?a ?b ?c] =>
               let w := eval vm_compute in (Sqlite.parse_cond a b c) in
               change (Sqlite.parse_cond a b c) with w
           end;
    cbv beta iota;
    rewrite ?filter_twice;
    try (symmetry; apply filter_all; reflexivity);
    try (apply List.filter_ext; intros r; unfold Sqlite.holds;
         cbn [Sqlite.text_of snd fst Sqlite.column_of];
         rewrite ?andb_assoc, ?andb_true_r; reflexivity).
Qed.

Lemma Sorted_skipn {A} (R : A -> A -> Prop) (n : nat) (l : list A) :
  Sorted R l -> Sorted R (skipn n l).
Proof.
  revert l. induction n as [|n IH]; intros l Hl; [exact Hl|].
  destruct l as [|x l]; [constructor|]. cbn [skipn]. apply IH. now inversion Hl.
Qed.

Lemma Sorted_firstn {A} (R : A -> A -> Prop) (n : nat) (l : list A) :
  Sorted R l -> Sorted R (firstn n l).
Proof.
  revert l. induction n as [|n IH]; intros l Hl; [constructor|].
  destruct l as [|x l]; [constructor|]. cbn [firstn].
  inversion Hl as [|? ? Hs Hhd]; subst. constructor; [now apply IH|].
  destruct l as [|y l]; [destruct n; constructor|].
  destruct n; cbn [firstn]; constructor. now inversion Hhd.
Qed.

Lemma In_skipn {A} (x : A) (n : nat) (l : list A) : In x (skipn n l) -> In x l.
Proof.
  revert l. induction n as [|n IH]; intros [|y l] H; cbn [skipn] in H; try assumption.
  right. now apply IH.
Qed.

Lemma In_firstn {A} (x : A) (n : nat) (l : list A) : In x (firstn n l) -> In x l.
Proof.
  revert l. induction n as [|n IH]; intros [|y l] H; cbn [firstn] in H; try contradiction.
  destruct H as [-> | H]; [now left | right; now apply IH].
Qed.

(** A page of a result: rows of the result, in the order of the result. *)
Lemma page_of_result (p : LogQueryParams) (rows : list Row) (d : Sqlite.direction) :
  in_order d rows ->
  let page :=
    match Params.limit p with
    | Some (Num k) =>
        if k =? 0 then rows
        else Sqlite.limit_rows k (skipn (skip_count (Params.offset p)) rows)
    | _ => rows
    end in
  in_order d page /\ (forall r, In r page -> In r rows).
Proof.
  intros Hs. cbn zeta.
  destruct (Params.limit p) as [[k| |neg]|]; try (split; [assumption | auto]).
  destruct (k =? 0); [split; [assumption | auto]|].
  unfold Sqlite.limit_rows. destruct (k <? 0).
  - split; [now apply Sorted_skipn | intros r; apply In_skipn].
  - split; [apply Sorted_firstn; now apply Sorted_skipn|].
    intros r Hr. eapply In_skipn, In_firstn, Hr.
Qed.

Lemma run_query_unpaginated (p : LogQueryParams) (w : World) :
  valid_order p -> db_fault (faults w) = false ->
  run_query (unpaginated p) w = Ok (filtered_ordered p (logs w)) w.
Proof. intros Hord Hdb. now rewrite run_query_valid. Qed.

(** X3. Without pagination, a request with a valid order gets exactly
    the stored rows that pass its filters, each once, ordered by
    timestamp in the direction asked for (newest first by default). *)
Theorem query_returns_the_matching_rows (p : LogQueryParams) (w : World) :
  valid_order p -> db_fault (faults w) = false ->
  exists rows,
    run_query (unpaginated p) w = Ok rows w
    /\ Permutation rows (List.filter (satisfies p) (logs w))
    /\ in_order (direction_of p) rows.
Proof.
  intros Hord Hdb. exists (filtered_ordered p (logs w)).
  split; [now apply run_query_unpaginated|].
  unfold filtered_ordered. rewrite matching_satisfies.
  split; [apply order_by_Permutation | apply order_by_Sorted].
Qed.

Lemma firstn_add {A} (a b : nat) (l : list A) :
  firstn (a + b) l = firstn a l ++ firstn b (skipn a l).
Proof.
  revert l. induction a as [|a IH]; intros l; [reflexivity|].
  destruct l as [|x l]; [cbn [skipn]; now rewrite !firstn_nil|].
  cbn [Nat.add firstn skipn app]. now rewrite IH.
Qed.

Lemma firstn_skipn_tile {A} (l : list A) (m k : nat) :
  firstn k (skipn m l) ++ firstn k (skipn (m + k) l) = firstn (k + k) (skipn m l).
Proof.
  rewrite firstn_add, (Nat.add_comm m k), skipn_skipn. reflexivity.
Qed.

(** X19. Pages tile the result: for a request with a valid order, the
    page of [k >= 1] rows at offset [m >= 0] followed by the page of
    [k] rows at offset [m + k] is the page of [2k] rows at offset
    [m] -- the limits and offsets being integers the database takes,
    below [2^63]. *)
Theorem pages_tile_the_result (p : LogQueryParams) (w : World) (k m : Z) :
  valid_order p -> db_fault (faults w) = false -> 0 < k -> 0 <= m ->
  m + k + k < 2 ^ 63 ->
  let page limit offset :=
    run_query (with_limit (Some (Num limit)) (with_offset (Some (Num offset)) p)) w in
  exists first second both,
    page k m = Ok first w /\ page k (m + k) = Ok second w /\ page (k + k) m = Ok both w
    /\ first ++ second = both.
Proof.
  intros Hord Hdb Hk Hm Hrange page. unfold page.
  assert (Hpage : forall a b, 0 < a < 2 ^ 63 -> 0 <= b < 2 ^ 63 ->
            page_ok (with_limit (Some (Num a)) (with_offset (Some (Num b)) p)) = true).
  { intros a b Ha Hb. unfold page_ok, pagination, accepted.
    cbn [Params.limit Params.offset with_limit with_offset].
    destruct (truthy_number (Num a)); [|reflexivity].
    destruct (truthy_number (Num b)); cbn [snd forallb];
      rewrite ?integer_of_in_range by lia; reflexivity. }
  rewrite !run_query_valid by (try assumption; apply Hpage; lia).
  cbn [Params.limit Params.offset with_limit with_offset skip_count].
  replace (k =? 0) with false by (symmetry; apply Z.eqb_neq; lia).
  replace (k + k =? 0) with false by (symmetry; apply Z.eqb_neq; lia).
  unfold Sqlite.limit_rows.
  replace (k <? 0) with false by (symmetry; apply Z.ltb_ge; lia).
  replace (k + k <? 0) with false by (symmetry; apply Z.ltb_ge; lia).
  do 3 eexists. split; [reflexivity|]. split; [reflexivity|]. split; [reflexivity|].
  change (filtered_ordered (with_limit _ (with_offset _ p)) (logs w))
    with (filtered_ordered p (logs w)).
  rewrite !Z2Nat.inj_add by lia. apply firstn_skipn_tile.
Qed.

End QueryResults.

(* ================================================================= *)
(** * The endpoint *)

Section Endpoint.
Import Js Runtime Wlog Vocabulary Behaviour.

Variable config : Config.

Lemma fetch_logs_path (req : Request) (w : World) :
  pathname req = path (serverOptions config) ->
  fetch config req w
  = bind (run_query (params_of (searchParams req))) (fun logs => ret (JsonRows logs)) w.
Proof.
  intros Hpath. unfold fetch, run_query. rewrite Hpath, String.eqb_refl.
  now destruct (buildQueryFromParams (params_of (searchParams req))).
Qed.

Lemma run_query_reads_only (p : LogQueryParams) (w : World) :
  world_of (run_query p w) = w.
Proof.
  unfold run_query. destruct (buildQueryFromParams p) as [query values].
  unfold Sqlite.all. destruct (db_fault (faults w)); [reflexivity|].
  destruct (Sqlite.prepare query) as [q|]; [|reflexivity].
  now destruct (Sqlite.execute q values (logs w)).
Qed.

(** X4. A request never changes anything: whatever the URL and whatever
    the state of the database, the world after the handler is the world
    before it.  Off the query path the handler does not touch the
    database at all, and answers even when it is down. *)
Theorem fetch_changes_nothing (req : Request) (w : World) :
  world_of (fetch config req w) = w
  /\ (pathname req <> path (serverOptions config) ->
      fetch config req w
      = Ok (if String.eqb (pathname req) (livePath (serverOptions config))
            then LivePage else Text "Wlog Server Running") w).
Proof.
  split.
  - unfold fetch.
    destruct (String.eqb_spec (pathname req) (path (serverOptions config))) as [Hp|Hp].
    + pose proof (run_query_reads_only (params_of (searchParams req)) w) as H.
      unfold run_query in H.
      destruct (buildQueryFromParams (params_of (searchParams req))) as [query values].
      unfold bind. now destruct (Sqlite.all query values w).
    + now destruct (String.eqb _ (livePath (serverOptions config))).
  - intros Hp. unfold fetch. apply String.eqb_neq in Hp. rewrite Hp.
    now destruct (String.eqb _ (livePath (serverOptions config))).
Qed.

Lemma order_ok_valid (sp : SearchParams) :
  order_ok sp -> valid_order (params_of sp).
Proof.
  unfold order_ok, valid_order, params_of. cbn [Params.order optional_chain].
  destruct (get "order" sp) as [o|]; cbn [optional_chain]; [|auto].
  intros [-> | [H | H]]; [auto | |]; rewrite H; cbn; auto.
Qed.

(** X5. On the query path, with an order the database knows (in any
    case of letters) or none, and a database that answers, the handler
    answers whenever the limit and the offset it binds are integers the
    database takes, whatever else the URL holds: every row it returns
    is a stored row that passes the filters, and the rows come ordered
    by timestamp in the direction asked for.  With a limit or an offset
    out of that range -- from [2^63] on, as in
    [?limit=99999999999999999999999] -- the database refuses the
    statement and the handler throws. *)
Theorem fetch_answers (req : Request) (w : World) :
  pathname req = path (serverOptions config) ->
  order_ok (searchParams req) ->
  db_fault (faults w) = false ->
  let p := params_of (searchParams req) in
  (page_ok p = true ->
   exists rows,
     fetch config req w = Ok (JsonRows rows) w
     /\ (forall r, In r rows -> In r (logs w) /\ satisfies p r = true)
     /\ in_order (direction_of p) rows)
  /\ (page_ok p = false -> fetch config req w = Throw SqliteError w).
Proof.
  intros Hpath Hord Hdb p. rewrite fetch_logs_path by assumption. fold p.
  pose proof (order_ok_valid _ Hord) as Hvalid. fold p in Hvalid.
  unfold bind. split; intros Hok.
  - rewrite run_query_valid by assumption.
    eexists. split; [reflexivity|].
    assert (Hfull : in_order (direction_of p) (filtered_ordered p (logs w)))
      by apply order_by_Sorted.
    destruct (page_of_result p _ _ Hfull) as [Hs Hin].
    split; [|exact Hs].
    intros r Hr. apply Hin in Hr. unfold filtered_ordered in Hr.
    rewrite matching_satisfies in Hr.
    apply (Permutation_in _ (order_by_Permutation _ _)) in Hr.
    now apply List.filter_In in Hr.
  - now rewrite run_query_refused.
Qed.

(** C5. A limit of 0 is no limit.  The builder tests
    [if (params.limit)], which 0 fails: the statement of a request
    with [limit=0] has no LIMIT clause, and the handler returns every
    stored row that passes the filters -- as many rows as there are,
    where a limit of 0, "the maximum number of logs to return", allows
    none. *)
Theorem limit_zero_returns_everything (req : Request) (w : World) :
  pathname req = path (serverOptions config) ->
  get "limit" (searchParams req) = Some "0" ->
  order_ok (searchParams req) ->
  db_fault (faults w) = false ->
  let p := params_of (searchParams req) in
  let passing := List.filter (satisfies p) (logs w) in
  exists rows,
    fetch config req w = Ok (JsonRows rows) w
    /\ Permutation rows passing
    /\ length rows = length passing
    /\ in_order (direction_of p) rows
    /\ Params.limit p = Some (Num 0)
    /\ buildQueryFromParams p = (ordered_query p, predicate_values p).
Proof.
  intros Hpath Hlimit Hord Hdb p passing.
  pose proof (order_ok_valid _ Hord) as Hvalid. fold p in Hvalid.
  assert (Hzero : Params.limit p = Some (Num 0)).
  { unfold p, params_of, get_int. cbn [Params.limit]. now rewrite Hlimit. }
  assert (Hpage : pagination p = (EmptyString, [])).
  { unfold pagination. now rewrite Hzero. }
  exists (filtered_ordered p (logs w)).
  assert (Hperm : Permutation (filtered_ordered p (logs w)) passing).
  { unfold filtered_ordered. rewrite matching_satisfies. apply order_by_Permutation. }
  split.
  { rewrite fetch_logs_path by assumption. fold p. unfold bind.
    rewrite run_query_valid; [now rewrite Hzero | assumption | assumption |].
    unfold page_ok. now rewrite Hpage. }
  split; [exact Hperm|]. split; [now apply Permutation_length|].
  split; [apply order_by_Sorted|]. split; [exact Hzero|].
  rewrite buildQueryFromParams_closed_form, Hpage. cbn [fst snd].
  now rewrite StringFacts.app_nil_r, List.app_nil_r.
Qed.

(** What [parseInt] makes of a text: white space in front is skipped,
    the no-break space and the byte order mark included; what follows
    the digits is dropped; a number too long for a double is rounded,
    ties to even. *)
Lemma parseInt_reads (nbsp bom : string) :
  nbsp = String "194" (String "160" EmptyString) -> bom = BOM ->
  parseInt (nbsp +:+ "5") = Num 5
  /\ parseInt (bom +:+ " 12px") = Num 12
  /\ parseInt "-0x1f" = Num (-31)
  /\ parseInt "9007199254740993" = Num 9007199254740992
  /\ parseInt "99999999999999999999999" = Num 99999999999999991611392
  /\ parseInt "px" = NaN.
Proof. intros -> ->. vm_compute. repeat split. Qed.

(** X6. A limit or an offset that [parseInt] reads as [NaN] -- no digit
    follows the white space, the sign and the [0x] in front -- is
    ignored: the statement and its bindings are those of the request
    without it. *)
Theorem malformed_pagination_is_ignored (sp : SearchParams) (text : string) :
  parseInt text = NaN ->
  (get "limit" sp = Some text ->
   buildQueryFromParams (params_of sp)
   = buildQueryFromParams (with_limit None (params_of sp)))
  /\ (get "offset" sp = Some text ->
      buildQueryFromParams (params_of sp)
      = buildQueryFromParams (with_offset None (params_of sp))).
Proof.
  intros Hnan. split; intros Hget; rewrite !buildQueryFromParams_closed_form;
    unfold pagination, params_of, get_int;
    cbn [Params.limit Params.offset with_limit with_offset]; rewrite Hget;
    destruct (truthy text); rewrite ?Hnan; cbn [truthy_number]; reflexivity.
Qed.

End Endpoint.

(* ================================================================= *)
(** * More on the file sink *)

Section SinkBehaviour.
Import Js Json Runtime Wlog Vocabulary Behaviour.

Variable config : Config.

(** ** What the sink leaves alone *)

(** A relation between the world before and the world after that holds
    of every step holds of the whole. *)
Lemma bind_keeps {A B} (R : World -> World -> Prop) (m : M A) (k : A -> M B) :
  (forall w1 w2 w3, R w1 w2 -> R w2 w3 -> R w1 w3) ->
  (forall w, R w (world_of (m w))) ->
  (forall a w, R w (world_of (k a w))) ->
  forall w, R w (world_of (bind m k w)).
Proof.
  intros Htrans Hm Hk w. unfold bind. specialize (Hm w).
  destruct (m w) as [a w1 | e w1]; cbn in *; [|exact Hm].
  eapply Htrans; [exact Hm | apply Hk].
Qed.

Lemma keeps_others_refl (p : string) (w : World) : keeps_others p w w.
Proof. split; [set_solver | auto]. Qed.

Lemma keeps_others_trans (p : string) (w1 w2 w3 : World) :
  keeps_others p w1 w2 -> keeps_others p w2 w3 -> keeps_others p w1 w3.
Proof.
  intros [Hd Hf] [Hd' Hf']. split; [set_solver|].
  intros q Hq. now rewrite Hf', Hf.
Qed.

Lemma attempt_keeps_others (entry : LogEntry) (w : World) :
  keeps_others (getFullFilePath config) w (world_of (attempt config entry w)).
Proof.
  set (p := getFullFilePath config).
  assert (Hquiet : forall A (m : M A), quiet m -> (forall w, dirs (world_of (m w)) = dirs w) ->
                     forall w, keeps_others p w (world_of (m w))).
  { intros A m Hq Hd w0. split; [now rewrite Hd|].
    intros q _. now rewrite (proj1 (Hq w0)). }
  unfold attempt. fold p. revert w.
  apply bind_keeps; [apply keeps_others_trans | |].
  { intros w. unfold ensureDirectoryExists, bind, existsSync, when.
    destruct (negb (exists_at w (dirname p))); [|apply keeps_others_refl].
    unfold mkdirSync. destruct (mkdir_fault (faults w)); [apply keeps_others_refl|].
    destruct (existsb _ _); [apply keeps_others_refl|].
    split; [cbn; apply union_subseteq_r | auto]. }
  intros _. apply bind_keeps; [apply keeps_others_trans | intros; apply keeps_others_refl |].
  intros found. apply bind_keeps; [apply keeps_others_trans | |].
  { intros w. destruct found; [|apply keeps_others_refl].
    unfold readFileSync. destruct (read_fault (faults w)); [apply keeps_others_refl|].
    destruct (files w !! p); apply keeps_others_refl. }
  intros content. apply bind_keeps; [apply keeps_others_trans | |].
  { apply Hquiet; [apply quiet_render|].
    intros w. unfold render. destruct (fileFormat config); try reflexivity.
    unfold bind, parse, push, ret, throw.
    destruct (truthy content); [destruct (JSON_parse content) as [[]|]|]; reflexivity. }
  intros newContent w. unfold writeFileSync.
  destruct (write_fault (faults w)); [apply keeps_others_refl|].
  destruct (bool_decide (p ∈ dirs w)); [apply keeps_others_refl|].
  destruct (bool_decide (dirname p ∈ dirs w));
    [|destruct (existsb _ _); apply keeps_others_refl].
  split; [cbn; reflexivity|]. intros q Hq. cbn. now rewrite lookup_insert_ne.
Qed.

Lemma writeToFile_keeps_others (entry : LogEntry) (w : World) :
  keeps_others (getFullFilePath config) w (world_of (writeToFile config entry w)).
Proof.
  rewrite writeToFile_attempt. unfold try_catch.
  pose proof (attempt_keeps_others entry w) as [Hd Hf].
  destruct (attempt config entry w) as [[] w1 | e w1]; cbn in *; split; auto.
Qed.

(** X7. Whatever happens, the file sink changes no file but the log
    file and removes no directory. *)
Theorem writeToFile_keeps_other_files (entry : LogEntry) (w : World) (q : string) :
  let w' := world_of (writeToFile config entry w) in
  dirs w ⊆ dirs w'
  /\ (q <> getFullFilePath config -> files w' !! q = files w !! q).
Proof.
  cbn zeta. destruct (writeToFile_keeps_others entry w) as [Hd Hf]. split; auto.
Qed.

(** ** A JSON file that does not hold an array of entries *)

(** X8. A JSON log file whose content cannot be parsed, or is not an
    array, is left as it is: the entry is dropped and the failure is
    reported on the error channel -- a syntax error when the content is
    not JSON, a type error when it is JSON but not an array. *)
Theorem writeToFile_json_keeps_a_broken_file (entry : LogEntry) (w : World) :
  fileFormat config = JSON -> writable config w ->
  let content := content_of w (getFullFilePath config) in
  truthy content = true -> utf8_text content = true ->
  (JSON_parse content = None ->
   writeToFile config entry w = Ok tt (with_console (failure_report SyntaxError) w))
  /\ (forall v, JSON_parse content = Some v -> (forall items, v <> JArray items) ->
      writeToFile config entry w = Ok tt (with_console (failure_report TypeError) w)).
Proof.
  intros Hfmt Hwr content Htruthy _.
  rewrite writeToFile_attempt. unfold try_catch.
  rewrite attempt_writable by assumption. fold content.
  unfold render. rewrite Hfmt, Htruthy. unfold parse.
  split.
  - intros ->. reflexivity.
  - intros v -> Hv. destruct v; try reflexivity. now destruct (Hv items).
Qed.

End SinkBehaviour.

(* ================================================================= *)
(** * The directory of the log file *)

Section Directories.
Import Js Json Runtime Wlog Vocabulary Behaviour.

Lemma length_string_of_list_ascii (l : list ascii) :
  String.length (string_of_list_ascii l) = length l.
Proof. induction l; cbn; congruence. Qed.

Lemma length_list_ascii_of_string (s : string) :
  length (list_ascii_of_string s) = String.length s.
Proof. induction s; cbn; congruence. Qed.

Lemma length_drop_while (f : ascii -> bool) (l : list ascii) :
  (length (drop_while f l) <= length l)%nat.
Proof.
  induction l as [|c l IH]; cbn [drop_while]; [lia|].
  destruct (f c); cbn [length]; lia.
Qed.

Lemma dirname_length (p : string) :
  (String.length (dirname p) <= Nat.max 2 (String.length p - 1))%nat.
Proof.
  unfold dirname. rewrite <- (length_list_ascii_of_string p).
  destruct (list_ascii_of_string p) as [|first tail]; [cbn; lia|].
  pose proof (length_drop_while (fun c => negb (is_slash c))
                (drop_while is_slash (rev tail))) as H1.
  pose proof (length_drop_while is_slash (rev tail)) as H2.
  rewrite length_rev in H2.
  destruct (drop_while _ (drop_while is_slash (rev tail))) as [|x before].
  - destruct (is_slash first); cbn; lia.
  - destruct before as [|y before].
    + destruct (is_slash first); cbn; lia.
    + rewrite length_string_of_list_ascii. cbn [length] in *.
      rewrite length_rev. cbn [length]. lia.
Qed.

Lemma lineage_length (fuel : nat) :
  forall (p q : string) (bound : nat),
    (2 <= bound)%nat -> (String.length p <= bound)%nat ->
    In q (lineage fuel p) -> (String.length q <= bound)%nat.
Proof.
  induction fuel as [|fuel IH]; intros p q bound Hb Hp Hq; cbn [lineage] in Hq.
  - destruct Hq as [<- | []]. exact Hp.
  - destruct (String.eqb (dirname p) p).
    + destruct Hq as [<- | []]. exact Hp.
    + destruct Hq as [<- | Hq]; [exact Hp|].
      apply (IH (dirname p)); [assumption | | assumption].
      pose proof (dirname_length p). lia.
Qed.

(** The log file is not one of the directories made for it. *)
Lemma log_file_not_in_lineage (config : Config) :
  let p := getFullFilePath config in
  ~ In p (lineage (String.length (dirname p)) (dirname p)).
Proof.
  cbn zeta. intros Hin.
  set (p := getFullFilePath config) in *.
  assert (Hlen : (4 <= String.length p)%nat).
  { unfold p, getFullFilePath. rewrite !StringFacts.length_app.
    destruct (fileFormat config); cbn; lia. }
  apply (lineage_length _ _ _ (String.length p - 1)) in Hin; [lia | lia |].
  pose proof (dirname_length p). lia.
Qed.

(** ** The directory of one logger *)

Section OneLogger.
Variable config : Config.

Lemma lineage_head (fuel : nat) (p : string) : In p (lineage fuel p).
Proof. destruct fuel; cbn [lineage]; [now left|]. destruct (String.eqb _ _); now left. Qed.

Lemma ensureDirectoryExists_present (w : World) :
  exists_at w (dirname (getFullFilePath config)) = true ->
  ensureDirectoryExists (getFullFilePath config) w = Ok tt w.
Proof.
  intros H. unfold ensureDirectoryExists, bind, existsSync. now rewrite H.
Qed.

Lemma ensureDirectoryExists_creatable (w : World) :
  creatable config w ->
  ensureDirectoryExists (getFullFilePath config) w = Ok tt (made_directory config w).
Proof.
  intros (Hm & _ & _ & Hex & Hfiles & _).
  unfold ensureDirectoryExists, bind, existsSync. rewrite Hex. cbn [negb when].
  unfold mkdirSync. now rewrite Hm, Hfiles.
Qed.

Lemma creatable_made_writable (w : World) :
  creatable config w -> writable config (made_directory config w).
Proof.
  intros (Hm & Hr & Hw & Hex & Hfiles & Hnd).
  unfold writable, made_directory. cbn [faults dirs with_fs].
  split; [assumption|]. split; [assumption|]. split; [assumption|]. split.
  - apply elem_of_union_l, elem_of_list_to_set, list_elem_of_In, lineage_head.
  - intros [Hin | Hin]%elem_of_union; [|contradiction].
    apply elem_of_list_to_set, list_elem_of_In in Hin.
    now apply (log_file_not_in_lineage config).
Qed.

Lemma bind_same {A B} (m : M A) (k : A -> M B) (a : A) (w w' w1 : World) :
  m w = Ok a w1 -> m w' = Ok a w1 -> bind m k w = bind m k w'.
Proof. unfold bind. now intros -> ->. Qed.

Lemma writeToFile_after_mkdir (entry : LogEntry) (w : World) :
  creatable config w ->
  writeToFile config entry w = writeToFile config entry (made_directory config w).
Proof.
  intros Hc. pose proof (creatable_made_writable w Hc) as Hwr.
  rewrite !writeToFile_attempt. unfold try_catch.
  replace (attempt config entry w) with (attempt config entry (made_directory config w));
    [reflexivity|].
  symmetry. unfold attempt. apply (bind_same _ _ tt _ _ (made_directory config w)).
  - now apply ensureDirectoryExists_creatable.
  - apply ensureDirectoryExists_present.
    destruct Hwr as (_ & _ & _ & Hdir & _).
    unfold exists_at. rewrite (bool_decide_eq_true_2 _ Hdir). apply orb_true_r.
Qed.

(** X9. When nothing stands where the directory of the log file should
    be, the sink makes the directory, with the directories above it,
    and then writes as it would have with the directory in place. *)
Theorem writeToFile_makes_the_directory (entry : LogEntry) (w : World) :
  creatable config w ->
  writable config (made_directory config w)
  /\ files (made_directory config w) = files w
  /\ writeToFile config entry w = writeToFile config entry (made_directory config w).
Proof.
  intros Hc. split; [now apply creatable_made_writable|]. split; [reflexivity|].
  now apply writeToFile_after_mkdir.
Qed.

(** X10. When a regular file stands where the directory of the log
    file should be, nothing is made or written: the sink reports the
    failure and leaves the file system as it was. *)
Theorem writeToFile_reports_a_file_in_the_way (entry : LogEntry) (w : World) :
  is_Some (files w !! dirname (getFullFilePath config)) ->
  dirname (getFullFilePath config) ∉ dirs w ->
  exists e, writeToFile config entry w = Ok tt (with_console (failure_report e) w).
Proof.
  intros Hfile Hnd.
  rewrite writeToFile_attempt. unfold try_catch, attempt.
  unfold bind at 1. rewrite ensureDirectoryExists_present.
  2:{ unfold exists_at. now rewrite (bool_decide_eq_true_2 _ Hfile). }
  unfold bind, existsSync, readFileSync, ret.
  assert (Hwrite : forall c, exists e,
             writeFileSync (getFullFilePath config) c w = Throw e w).
  { intros c. unfold writeFileSync.
    destruct (write_fault (faults w)); [eauto|].
    destruct (bool_decide _); [eauto|].
    rewrite (bool_decide_eq_false_2 _ Hnd). destruct (existsb _ _); eauto. }
  assert (Hrender : forall c, exists e,
             match render config entry c w with
             | Ok a w' => writeFileSync (getFullFilePath config) a w'
             | Throw e w' => Throw e w'
             end = Throw e w).
  { intros c. unfold render. destruct (fileFormat config); cbv [ret bind]; try apply Hwrite.
    unfold parse, push. destruct (truthy c); cbv [ret throw].
    - destruct (JSON_parse c) as [[]|]; eauto.
    - apply Hwrite. }
  destruct (exists_at w (getFullFilePath config)).
  - destruct (read_fault (faults w)); [eauto|].
    destruct (files w !! getFullFilePath config) as [c|]; [|eauto].
    destruct (Hrender c) as [e ->]. eauto.
  - destruct (Hrender EmptyString) as [e ->]. eauto.
Qed.
End OneLogger.

End Directories.

(* ================================================================= *)
(** * More on the facade *)

Section FacadeBehaviour.
Import Js Json Runtime Wlog Vocabulary Behaviour.

Variable host : Host.
Variable config : Config.

(** What a call does to the table and to what later calls depend on. *)
Lemma facade_store_state (s : Severity) (message : string) (w : World) :
  db_fault (faults w) = false ->
  exists w',
    facade host config s message w = Ok tt w'
    /\ logs w' = logs w ++ [stored_row host s message w]
    /\ next_id w' = next_id w + 1
    /\ faults w' = faults w.
Proof.
  intros Hdb. rewrite facade_run by assumption.
  assert (Hstate : forall w2, w2 = after_console host config s message w ->
            logs w2 = logs w ++ [stored_row host s message w]
            /\ next_id w2 = next_id w + 1 /\ faults w2 = faults w).
  { intros w2 ->. unfold after_console, after_store.
    destruct (logToConsole config); cbn; auto. }
  destruct (Hstate _ eq_refl) as (Hl & Hn & Hf).
  destruct (logToFile config).
  - destruct (writeToFile_contains_failures config (file_entry host config s message w)
                (with_tick (after_console host config s message w)))
      as (w' & Hrun & Hl' & Hn' & _ & Hf' & _).
    exists w'. split; [assumption|].
    split; [now rewrite Hl'|]. split; [now rewrite Hn'| now rewrite Hf'].
  - eexists. split; [reflexivity|]. auto.
Qed.

Lemma run_calls_rows (calls : list (Severity * string)) (w : World) :
  db_fault (faults w) = false ->
  exists w' rows,
    run_calls host config calls w = Ok tt w'
    /\ logs w' = logs w ++ rows
    /\ map (fun r => (row_level r, row_message r)) rows
       = map (fun c => (tag (fst c), snd c)) calls
    /\ map row_id rows = keys_from (next_id w) (length calls)
    /\ next_id w' = next_id w + Z.of_nat (length calls)
    /\ faults w' = faults w.
Proof.
  revert w. induction calls as [|[s m] calls IH]; intros w Hdb.
  - exists w, []. cbn [run_calls map length keys_from Z.of_nat].
    rewrite List.app_nil_r, Z.add_0_r. repeat (split; [reflexivity|]). reflexivity.
  - destruct (facade_store_state s m w Hdb) as (w1 & Hrun & Hl & Hn & Hf).
    destruct (IH w1) as (w' & rows & Hrun' & Hl' & Hshape & Hkeys & Hn' & Hf');
      [now rewrite Hf|].
    exists w', (stored_row host s m w :: rows).
    cbn [run_calls]. unfold bind. rewrite Hrun.
    split; [assumption|].
    split; [rewrite Hl', Hl, <- List.app_assoc; reflexivity|].
    cbn [map length keys_from stored_row row_level row_message row_id fst snd].
    split; [now rewrite Hshape|]. split; [now rewrite Hkeys, Hn|].
    split; [rewrite Hn', Hn; lia | congruence].
Qed.

(** X11. On a database that accepts the inserts, a run of calls stores
    one row per call, in the order of the calls, with the tag and the
    message of each call and with consecutive keys, and leaves the rows
    that were there untouched -- whatever becomes of the log file. *)
Theorem run_calls_stores_every_call (calls : list (Severity * string)) (w : World) :
  db_fault (faults w) = false ->
  exists w' rows,
    run_calls host config calls w = Ok tt w'
    /\ logs w' = logs w ++ rows
    /\ map (fun r => (row_level r, row_message r)) rows
       = map (fun c => (tag (fst c), snd c)) calls
    /\ map row_id rows = keys_from (next_id w) (length calls).
Proof.
  intros Hdb.
  destruct (run_calls_rows calls w Hdb) as (w' & rows & Hrun & Hlogs & Hshape & Hkeys & _).
  exists w', rows.
  split; [exact Hrun|]. split; [exact Hlogs|]. split; [exact Hshape | exact Hkeys].
Qed.

(** On a database that refuses the insert, a run stops at its first
    call: the failure reaches the caller and the later calls are never
    made. *)
Lemma run_calls_stops_at_store_failure (s : Severity) (message : string)
    (calls : list (Severity * string)) (w : World) :
  db_fault (faults w) = true ->
  run_calls host config ((s, message) :: calls) w = Throw StoreWriteError (with_tick w).
Proof.
  intros Hdb. cbn [run_calls]. unfold bind. now rewrite facade_locked.
Qed.

(** ** Text files *)

Lemma writeToFile_text (entry : LogEntry) (w : World) :
  fileFormat config = TEXT -> writable config w ->
  writeToFile config entry w
  = Ok tt (put_file config (content_of w (getFullFilePath config) +:+ text_line entry) w).
Proof.
  intros Hfmt Hwr. rewrite writeToFile_attempt. unfold try_catch.
  rewrite attempt_writable by assumption.
  unfold render. rewrite Hfmt. unfold bind, ret.
  now rewrite writeFileSync_writable.
Qed.

Lemma run_calls_text (calls : list (Severity * string)) :
  forall w : World,
    fileFormat config = TEXT -> logToFile config = true ->
    writable config w -> db_fault (faults w) = false ->
    exists w',
      run_calls host config calls w = Ok tt w'
      /\ writable config w'
      /\ content_of w' (getFullFilePath config)
         = content_of w (getFullFilePath config)
             +:+ text_body (entries_of_calls host config calls (ticks w)).
Proof.
  induction calls as [|[s message] calls IH]; intros w Hfmt Hfile Hwr Hdb.
  - exists w. split; [reflexivity|]. split; [assumption|].
    cbn. now rewrite StringFacts.app_nil_r.
  - cbn [run_calls entries_of_calls text_body]. unfold bind.
    rewrite facade_run by assumption. rewrite Hfile.
    destruct (after_console_frame host config s message w) as (Hf & Hd & _ & Hfl & Ht).
    set (w2 := with_tick (after_console host config s message w)) in *.
    assert (Hwr2 : writable config w2) by (now apply (writable_frame config w)).
    rewrite writeToFile_text by assumption.
    set (w3 := put_file config _ w2).
    destruct (IH w3 Hfmt Hfile) as (w' & Hrun & Hwr' & Hcontent).
    { now apply writable_put_file. }
    { unfold w3, put_file. cbn [faults with_fs]. now rewrite Hfl. }
    exists w'. split; [assumption|]. split; [assumption|].
    rewrite Hcontent. unfold w3 at 1. rewrite content_of_put_file.
    replace (ticks w3) with (ticks w2) by reflexivity. rewrite Ht.
    replace (content_of w2 (getFullFilePath config))
      with (content_of w (getFullFilePath config))
      by (unfold content_of; now rewrite Hf).
    now rewrite StringFacts.app_assoc.
Qed.

Lemma text_body_lines (entries : list LogEntry) :
  text_body entries = bracketed_lines entries.
Proof.
  induction entries as [|e es IH]; [reflexivity|].
  cbn [text_body bracketed_lines]. unfold text_line.
  now rewrite IH, !StringFacts.app_assoc.
Qed.

(** X13. Calls on a text logger only append: after a run, the log file
    holds what it held -- a text in UTF-8 -- followed by one line
    [[<timestamp>] [<LEVEL>] <message>] per call, in order, the
    timestamp being the locale rendering of the clock read for the
    file. *)
Theorem text_file_is_appended_to (calls : list (Severity * string)) (w : World) :
  fileFormat config = TEXT -> logToFile config = true ->
  writable config w -> db_fault (faults w) = false ->
  utf8_text (content_of w (getFullFilePath config)) = true ->
  exists w' entries,
    run_calls host config calls w = Ok tt w'
    /\ entries = entries_of_calls host config calls (ticks w)
    /\ map (fun e => (level e, message e)) entries
       = map (fun c => (TAG (fst c), snd c)) calls
    /\ content_of w' (getFullFilePath config)
       = content_of w (getFullFilePath config) +:+ bracketed_lines entries.
Proof.
  intros Hfmt Hfile Hwr Hdb _.
  destruct (run_calls_text calls w Hfmt Hfile Hwr Hdb) as (w' & Hrun & _ & Hcontent).
  exists w', (entries_of_calls host config calls (ticks w)).
  split; [assumption|]. split; [reflexivity|]. split; [apply entries_of_calls_fields|].
  now rewrite <- text_body_lines.
Qed.

(** X14. Calls on a CSV logger whose file already holds something -- a
    text in UTF-8 -- only append to it, one line
    [<timestamp>,<LEVEL>,<message>] per call: no header is written,
    whether or not the file begins with one. *)
Theorem csv_file_with_content_is_appended_to (calls : list (Severity * string)) (w : World) :
  fileFormat config = CSV -> logToFile config = true ->
  writable config w -> db_fault (faults w) = false ->
  truthy (content_of w (getFullFilePath config)) = true ->
  utf8_text (content_of w (getFullFilePath config)) = true ->
  exists w' entries,
    run_calls host config calls w = Ok tt w'
    /\ entries = entries_of_calls host config calls (ticks w)
    /\ map (fun e => (level e, message e)) entries
       = map (fun c => (TAG (fst c), snd c)) calls
    /\ content_of w' (getFullFilePath config)
       = content_of w (getFullFilePath config) +:+ comma_joined_lines entries.
Proof.
  intros Hfmt Hfile Hwr Hdb Hold _.
  destruct (run_calls_csv host config calls w Hfmt Hfile Hwr Hdb) as (w' & Hrun & Hcontent).
  exists w', (entries_of_calls host config calls (ticks w)).
  split; [assumption|]. split; [reflexivity|]. split; [apply entries_of_calls_fields|].
  rewrite Hcontent, <- csv_body_lines. now apply csv_steps_append.
Qed.

(** ** JSON files *)

Lemma run_calls_json (calls : list (Severity * string)) :
  forall (done : list LogEntry) (w : World),
    fileFormat config = JSON -> logToFile config = true ->
    writable config w -> db_fault (faults w) = false ->
    content_of w (getFullFilePath config)
    = match done with
      | [] => EmptyString
      | _ => JSON_stringify (entries_array done)
      end ->
    exists w',
      run_calls host config calls w = Ok tt w'
      /\ content_of w' (getFullFilePath config)
         = match done ++ entries_of_calls host config calls (ticks w) with
           | [] => EmptyString
           | all => JSON_stringify (entries_array all)
           end.
Proof.
  induction calls as [|[s message] calls IH]; intros done w Hfmt Hfile Hwr Hdb Hcontent.
  - exists w. split; [reflexivity|]. cbn [entries_of_calls]. rewrite List.app_nil_r.
    rewrite Hcontent. now destruct done.
  - cbn [run_calls entries_of_calls]. unfold bind.
    rewrite facade_run by assumption. rewrite Hfile.
    destruct (after_console_frame host config s message w) as (Hf & Hd & _ & Hfl & Ht).
    set (w2 := with_tick (after_console host config s message w)) in *.
    assert (Hwr2 : writable config w2) by (now apply (writable_frame config w)).
    rewrite (writeToFile_json config done).
    2: assumption. 2: assumption.
    2:{ rewrite <- Hcontent. unfold content_of. now rewrite Hf. }
    set (e := file_entry host config s message w).
    set (w3 := put_file config _ w2).
    destruct (IH (done ++ [e]) w3 Hfmt Hfile) as (w' & Hrun & Hcontent').
    { now apply writable_put_file. }
    { unfold w3, put_file. cbn [faults with_fs]. now rewrite Hfl. }
    { unfold w3. rewrite content_of_put_file. now destruct done. }
    exists w'. split; [assumption|].
    rewrite Hcontent'. replace (ticks w3) with (ticks w2) by reflexivity. rewrite Ht.
    now rewrite <- List.app_assoc.
Qed.


(** ** The console *)

(** ** Logged, then queried *)

(** X20. What is logged is found: after a call on a database that
    accepts the insert, a request without pagination returns what it
    returned before the call, and the new row as well exactly when the
    row passes the filters of the request (up to the order of the
    rows). *)
Theorem logged_row_is_found (s : Severity) (message : string) (w : World)
    (p : LogQueryParams) :
  db_fault (faults w) = false -> valid_order p ->
  exists w' before after,
    facade host config s message w = Ok tt w'
    /\ run_query (unpaginated p) w = Ok before w
    /\ run_query (unpaginated p) w' = Ok after w'
    /\ Permutation after
         (if satisfies p (stored_row host s message w)
          then stored_row host s message w :: before
          else before).
Proof.
  intros Hdb Hord.
  destruct (facade_store_state s message w Hdb) as (w' & Hrun & Hlogs & _ & Hfaults).
  exists w', (filtered_ordered p (logs w)), (filtered_ordered p (logs w')).
  split; [assumption|].
  split; [now apply run_query_unpaginated|].
  split; [apply run_query_unpaginated; [assumption | now rewrite Hfaults]|].
  unfold filtered_ordered. rewrite !matching_satisfies, Hlogs, List.filter_app.
  cbn [List.filter].
  destruct (satisfies p (stored_row host s message w)).
  - etransitivity; [apply order_by_Permutation|].
    etransitivity; [symmetry; apply Permutation_cons_append|].
    apply Permutation_cons; [reflexivity|]. symmetry. apply order_by_Permutation.
  - rewrite List.app_nil_r. reflexivity.
Qed.

End FacadeBehaviour.

Section ConsoleDefault.
Import Js Json Runtime Wlog Vocabulary Behaviour.

(** X15. A logger prints its calls on the console unless its options
    say [logToConsole: false]: with the option left out, every call on
    a database that accepts the insert prints its line; with [false],
    nothing reaches the console but the report of a failed file
    write. *)
Theorem console_is_on_unless_turned_off (host : Host) (options : Options.WlogConfig)
    (s : Severity) (message : string) (w : World) :
  db_fault (faults w) = false ->
  exists w' report,
    facade host (constructor options) s message w = Ok tt w'
    /\ (report = [] \/ exists e, report = [failure_report e])
    /\ console w'
       = console w
           ++ match Options.logToConsole options with
              | Some false => []
              | _ => [console_line host s message w]
              end
           ++ report.
Proof.
  intros Hdb.
  destruct (facade_outcome host (constructor options) s message w Hdb)
    as (w' & report & Hrun & _ & Hconsole & Hreport).
  exists w', report. split; [assumption|]. split.
  - destruct Hreport as [[-> _] | (_ & _ & e & ->)]; [now left | right; now exists e].
  - rewrite Hconsole. cbn [logToConsole constructor nullish].
    now destruct (Options.logToConsole options) as [[]|].
Qed.

End ConsoleDefault.

(* ================================================================= *)
(** * The script *)

Section TheScript.
Import Js Json Runtime Wlog Vocabulary Behaviour.

Section Worlds.
Variable host : Host.
Variable config : Config.

(** The world a call on a logger with a writable file leaves, given
    what its format makes of the content of the file. *)
Lemma facade_writes (s : Severity) (message : string) (w : World) (content : string) :
  db_fault (faults w) = false -> logToFile config = true -> writable config w ->
  (forall w2, writable config w2 -> files w2 = files w ->
     writeToFile config (file_entry host config s message w) w2
     = Ok tt (put_file config content w2)) ->
  facade host config s message w
  = Ok tt (put_file config content (with_tick (after_console host config s message w))).
Proof.
  intros Hdb Hfile Hwr Hwrite. rewrite facade_run by assumption. rewrite Hfile.
  destruct (after_console_frame host config s message w) as (Hf & Hd & _ & Hfl & _).
  apply Hwrite; [now apply (writable_frame config w) | exact Hf].
Qed.

Lemma content_of_files (w w2 : World) (p : string) :
  files w2 = files w -> content_of w2 p = content_of w p.
Proof. unfold content_of. now intros ->. Qed.

Lemma facade_writes_text (s : Severity) (message : string) (w : World) :
  fileFormat config = TEXT ->
  db_fault (faults w) = false -> logToFile config = true -> writable config w ->
  facade host config s message w
  = Ok tt (put_file config
             (content_of w (getFullFilePath config)
                +:+ text_line (file_entry host config s message w))
             (with_tick (after_console host config s message w))).
Proof.
  intros Hfmt Hdb Hfile Hwr. apply facade_writes; try assumption.
  intros w2 Hwr2 Hf. rewrite writeToFile_text by assumption.
  now rewrite (content_of_files w w2).
Qed.

Lemma facade_writes_csv (s : Severity) (message : string) (w : World) :
  fileFormat config = CSV ->
  db_fault (faults w) = false -> logToFile config = true -> writable config w ->
  facade host config s message w
  = Ok tt (put_file config
             (csv_step (content_of w (getFullFilePath config))
                (file_entry host config s message w))
             (with_tick (after_console host config s message w))).
Proof.
  intros Hfmt Hdb Hfile Hwr. apply facade_writes; try assumption.
  intros w2 Hwr2 Hf. rewrite writeToFile_csv by assumption.
  now rewrite (content_of_files w w2).
Qed.

Lemma facade_writes_json_first (s : Severity) (message : string) (w : World) :
  fileFormat config = JSON ->
  db_fault (faults w) = false -> logToFile config = true -> writable config w ->
  content_of w (getFullFilePath config) = EmptyString ->
  facade host config s message w
  = Ok tt (put_file config
             (JSON_stringify (entries_array [file_entry host config s message w]))
             (with_tick (after_console host config s message w))).
Proof.
  intros Hfmt Hdb Hfile Hwr Hempty. apply facade_writes; try assumption.
  intros w2 Hwr2 Hf. apply (writeToFile_json config []); try assumption.
  now rewrite (content_of_files w w2).
Qed.

Lemma facade_keeps_others (s : Severity) (message : string) (w : World) :
  keeps_others (getFullFilePath config) w (world_of (facade host config s message w)).
Proof.
  destruct (db_fault (faults w)) eqn:Hdb.
  - rewrite facade_locked by assumption. split; [reflexivity | auto].
  - rewrite facade_run by assumption.
    destruct (after_console_frame host config s message w) as (Hf & Hd & _).
    destruct (logToFile config).
    + eapply keeps_others_trans; [|apply writeToFile_keeps_others].
      split; [now rewrite Hd | intros q _; now rewrite Hf].
    + cbn [world_of]. unfold after_console, after_store.
      destruct (logToConsole config); (split; [reflexivity | auto]).
Qed.

Lemma run_calls_keeps_others (calls : list (Severity * string)) :
  forall w, keeps_others (getFullFilePath config) w (world_of (run_calls host config calls w)).
Proof.
  induction calls as [|[s m] calls IH]; intros w; [apply keeps_others_refl|].
  cbn [run_calls]. revert w.
  apply bind_keeps; [apply keeps_others_trans | apply facade_keeps_others | intros _; apply IH].
Qed.

(** X17. Whatever the faults, a run of calls on a logger changes no
    file but the log file of this logger and the files the database
    keeps for itself, and removes no directory. *)
Theorem run_calls_keeps_other_files (calls : list (Severity * string)) (w : World)
    (q : string) :
  let w' := world_of (run_calls host config calls w) in
  dirs w ⊆ dirs w'
  /\ (q <> getFullFilePath config -> of_database q = false ->
      files w' !! q = files w !! q).
Proof.
  cbn zeta. destruct (run_calls_keeps_others calls w) as [Hd Hf]. split; auto.
Qed.

End Worlds.

Section Script.
Variable host : Host.

Lemma text_logger_first_call (w : World) :
  ready_for_script w ->
  exists w0,
    facade host Index.textLogger CallLog "This is a text log" w
    = Ok tt (put_file Index.textLogger
               (text_line (file_entry host Index.textLogger CallLog "This is a text log" w)) w0)
    /\ files w0 = files w
    /\ logs w0 = logs w ++ [stored_row host CallLog "This is a text log" w]
    /\ console w0 = console w ++ [console_line host CallLog "This is a text log" w]
    /\ next_id w0 = next_id w + 1
    /\ ticks w0 = S (S (S (ticks w)))
    /\ faults w0 = no_faults
    /\ "logs" ∈ dirs w0
    /\ (forall q, q ∈ dirs w0 -> q ∈ dirs w \/ q = "logs" \/ q = ".").
Proof.
  intros (Hfaults & Hdir & Hnt & Hnj & Hnc & Hft & Hfj & Hfc).
  assert (Hdb : db_fault (faults w) = false) by now rewrite Hfaults.
  rewrite facade_run by assumption.
  change (logToFile Index.textLogger) with true. cbv iota.
  set (w1 := with_tick (after_console host Index.textLogger CallLog "This is a text log" w)).
  assert (Hw1 : files w1 = files w /\ dirs w1 = dirs w /\ faults w1 = faults w
                /\ logs w1 = logs w ++ [stored_row host CallLog "This is a text log" w]
                /\ console w1 = console w ++ [console_line host CallLog "This is a text log" w]
                /\ next_id w1 = next_id w + 1 /\ ticks w1 = S (S (S (ticks w)))).
  { repeat split. }
  destruct Hw1 as (Hf1 & Hd1 & Hfl1 & Hl1 & Hc1 & Hn1 & Ht1).
  assert (Hcontent : forall w2, files w2 = files w ->
             content_of w2 (getFullFilePath Index.textLogger) = EmptyString).
  { intros w2 Hf2. unfold content_of. rewrite Hf2.
    change (getFullFilePath Index.textLogger) with "logs/text-logs.txt". now rewrite Hft. }
  destruct Hdir as [Hdir | [Hmissing Hdot]].
  - assert (Hwr : writable Index.textLogger w1).
    { unfold writable. rewrite Hfl1, Hfaults, Hd1.
      change (dirname (getFullFilePath Index.textLogger)) with "logs".
      change (getFullFilePath Index.textLogger) with "logs/text-logs.txt". auto. }
    exists w1. rewrite writeToFile_text by (reflexivity || assumption).
    rewrite Hcontent by assumption. cbn [String.append].
    split; [reflexivity|]. rewrite Hfl1, Hd1.
    repeat (split; [assumption|]). auto.
  - assert (Hcr : creatable Index.textLogger w1).
    { unfold creatable. cbn zeta. rewrite Hfl1, Hfaults, Hd1.
      change (dirname (getFullFilePath Index.textLogger)) with "logs".
      change (getFullFilePath Index.textLogger) with "logs/text-logs.txt".
      unfold exists_at in *. rewrite Hf1, Hd1.
      apply orb_false_iff in Hmissing as [Hm1 Hm2].
      split; [reflexivity|]. split; [reflexivity|]. split; [reflexivity|].
      split; [now rewrite Hm1, Hm2|]. split; [|assumption].
      change (lineage (String.length "logs") "logs") with ["logs"; "."].
      cbn [existsb]. rewrite Hm1, Hdot. reflexivity. }
    rewrite writeToFile_after_mkdir by assumption.
    pose proof (creatable_made_writable _ _ Hcr) as Hwr.
    exists (made_directory Index.textLogger w1).
    rewrite writeToFile_text by (reflexivity || assumption).
    rewrite Hcontent by assumption. cbn [String.append].
    split; [reflexivity|].
    unfold made_directory. cbn [files logs console next_id ticks faults dirs with_fs].
    change (dirname (getFullFilePath Index.textLogger)) with "logs".
    change (lineage (String.length "logs") "logs") with ["logs"; "."].
    rewrite Hfl1, Hd1.
    repeat (split; [assumption|]).
    split; [apply elem_of_union_l, elem_of_list_to_set; now left|].
    intros q [Hq | Hq]%elem_of_union; [|now left].
    apply elem_of_list_to_set, list_elem_of_In in Hq.
    destruct Hq as [<- | [<- | []]]; auto.
Qed.

Lemma intervals_run_calls (n : nat) (w : World) :
  Index.intervals host n w
  = run_calls host Index.textLogger (repeat (CallLog, "This is a text log") n) w.
Proof.
  revert w. induction n as [|n IH]; intros w; [reflexivity|].
  cbn [Index.intervals repeat run_calls]. unfold bind, Index.on_interval.
  change (log host Index.textLogger "This is a text log")
    with (facade host Index.textLogger CallLog "This is a text log").
  destruct (facade host Index.textLogger CallLog "This is a text log" w); [apply IH | reflexivity].
Qed.

Lemma interval_lines_entries (n : nat) :
  forall t,
    bracketed_lines
      (entries_of_calls host Index.textLogger (repeat (CallLog, "This is a text log") n) t)
    = interval_lines host t n.
Proof.
  induction n as [|n IH]; intros t; [reflexivity|].
  cbn [repeat entries_of_calls bracketed_lines interval_lines].
  change (logToConsole Index.textLogger) with true. cbv iota.
  cbn [timestamp level message TAG]. rewrite IH. reflexivity.
Qed.

(** X18. Each firing of the interval appends one line to the text file
    and stores one row: after [n] firings on a writable text file and a
    database that accepts the inserts, the file holds what it held -- a
    text in UTF-8 -- and [n] more lines
    [[<timestamp>] [LOG] This is a text log], the table [n] more rows
    tagged [log], and every other file, those of the database apart, is
    as it was. *)
Theorem interval_firings (n : nat) (w : World) :
  writable Index.textLogger w -> db_fault (faults w) = false ->
  utf8_text (content_of w "logs/text-logs.txt") = true ->
  exists w' rows,
    Index.intervals host n w = Ok tt w'
    /\ content_of w' "logs/text-logs.txt"
       = content_of w "logs/text-logs.txt" +:+ interval_lines host (ticks w) n
    /\ logs w' = logs w ++ rows
    /\ map (fun r => (row_level r, row_message r)) rows
       = repeat ("log", "This is a text log") n
    /\ (forall q, q <> "logs/text-logs.txt" -> of_database q = false ->
          files w' !! q = files w !! q).
Proof.
  intros Hwr Hdb _. rewrite intervals_run_calls.
  set (calls := repeat (CallLog, "This is a text log") n).
  destruct (run_calls_text host Index.textLogger calls w eq_refl eq_refl Hwr Hdb)
    as (w' & Hrun & _ & Hcontent).
  destruct (run_calls_rows host Index.textLogger calls w Hdb)
    as (w'' & rows & Hrun' & Hlogs & Hshape & _).
  rewrite Hrun in Hrun'. injection Hrun' as <-.
  exists w', rows.
  split; [assumption|].
  split.
  { change (getFullFilePath Index.textLogger) with "logs/text-logs.txt" in Hcontent.
    rewrite Hcontent, text_body_lines. unfold calls. now rewrite interval_lines_entries. }
  split; [assumption|].
  split; [rewrite Hshape; unfold calls; now rewrite map_repeat|].
  intros q Hq _.
  destruct (run_calls_keeps_others host Index.textLogger calls w) as [_ Hf].
  rewrite Hrun in Hf. now apply Hf.
Qed.

End Script.

End TheScript.

(* ================================================================= *)
(** * The further theorems at work *)

Section MoreInstances.
Import Js Json Runtime Wlog Vocabulary Behaviour.

Local Ltac holds_now :=
  first [ reflexivity
        | vm_compute; reflexivity
        | vm_compute; intros H; discriminate H ].

Local Ltac writable_here :=
  unfold writable;
  split; [holds_now|]; split; [holds_now|]; split; [holds_now|];
  split; holds_now.

Lemma statement_text_ignores_values_dates :
  let p := Params.mkLogQueryParams (Some "2024-01-01") None (Some "error") (Some (Num 5))
             None None in
  let q := Params.mkLogQueryParams (Some "x' OR 1=1 --") None (Some "log") (Some (Num 9))
             (Some NaN) (Some "DESC") in
  same_shape p q
  /\ fst (buildQueryFromParams p) = fst (buildQueryFromParams q).
Proof.
  cbn zeta.
  assert (H : same_shape
                (Params.mkLogQueryParams (Some "2024-01-01") None (Some "error")
                   (Some (Num 5)) None None)
                (Params.mkLogQueryParams (Some "x' OR 1=1 --") None (Some "log")
                   (Some (Num 9)) (Some NaN) (Some "DESC"))).
  { unfold same_shape. repeat (split; [reflexivity|]). reflexivity. }
  split; [exact H|]. apply (statement_text_ignores_values _ _ H).
Defined.

Lemma query_returns_the_matching_rows_one_row :
  let p := Params.mkLogQueryParams None None (Some "log") None None None in
  valid_order p /\ db_fault (faults one_row) = false
  /\ exists rows,
       run_query (unpaginated p) one_row = Ok rows one_row
       /\ Permutation rows (List.filter (satisfies p) (logs one_row))
       /\ in_order (direction_of p) rows.
Proof.
  cbn zeta.
  assert (H : valid_order (Params.mkLogQueryParams None None (Some "log") None None None))
    by (left; reflexivity).
  split; [exact H|]. split; [reflexivity|].
  apply (query_returns_the_matching_rows _ one_row H eq_refl).
Defined.

Lemma fetch_changes_nothing_elsewhere :
  let config := constructor Options.empty in
  let req := mkRequest "/health" [] in
  pathname req <> path (serverOptions config)
  /\ fetch config req locked = Ok (Text "Wlog Server Running") locked.
Proof.
  cbn zeta.
  assert (H : pathname (mkRequest "/health" [])
              <> path (serverOptions (constructor Options.empty)))
    by (intros H; discriminate H).
  split; [exact H|].
  apply (proj2 (fetch_changes_nothing (constructor Options.empty)
                  (mkRequest "/health" []) locked) H).
Defined.

Lemma limit_zero_returns_everything_one_row :
  let config := constructor Options.empty in
  let req := mkRequest "/logs" [("limit", "0")] in
  pathname req = path (serverOptions config)
  /\ get "limit" (searchParams req) = Some "0"
  /\ order_ok (searchParams req)
  /\ db_fault (faults one_row) = false
  /\ exists rows,
       fetch config req one_row = Ok (JsonRows rows) one_row
       /\ length rows = 1%nat
       /\ fst (buildQueryFromParams (params_of (searchParams req)))
          = "SELECT * FROM logs ORDER BY timestamp DESC".
Proof.
  cbn zeta.
  assert (H : order_ok [("limit", "0")]) by exact I.
  split; [reflexivity|]. split; [reflexivity|]. split; [exact H|]. split; [reflexivity|].
  destruct (limit_zero_returns_everything (constructor Options.empty)
              (mkRequest "/logs" [("limit", "0")]) one_row eq_refl eq_refl H eq_refl)
    as (rows & Hrun & _ & Hlen & _ & _ & Hquery).
  exists rows. split; [exact Hrun|]. split; [exact Hlen|].
  now rewrite Hquery.
Defined.

Lemma fetch_answers_lower_case_order :
  let config := constructor Options.empty in
  let req := mkRequest "/logs" [("order", "asc"); ("limit", "-3"); ("level", "log")] in
  let huge := mkRequest "/logs" [("limit", "99999999999999999999999")] in
  pathname req = path (serverOptions config)
  /\ order_ok (searchParams req)
  /\ db_fault (faults one_row) = false
  /\ page_ok (params_of (searchParams req)) = true
  /\ (exists rows,
        fetch config req one_row = Ok (JsonRows rows) one_row
        /\ (forall r, In r rows ->
              In r (logs one_row) /\ satisfies (params_of (searchParams req)) r = true)
        /\ in_order (direction_of (params_of (searchParams req))) rows)
  /\ order_ok (searchParams huge)
  /\ page_ok (params_of (searchParams huge)) = false
  /\ fetch config huge one_row = Throw SqliteError one_row.
Proof.
  cbn zeta.
  assert (H : order_ok [("order", "asc"); ("limit", "-3"); ("level", "log")])
    by (right; left; reflexivity).
  assert (H' : order_ok [("limit", "99999999999999999999999")]) by exact I.
  split; [reflexivity|]. split; [exact H|]. split; [reflexivity|].
  split; [vm_compute; reflexivity|].
  split.
  { apply (proj1 (fetch_answers (constructor Options.empty)
                    (mkRequest "/logs" [("order", "asc"); ("limit", "-3"); ("level", "log")])
                    one_row eq_refl H eq_refl)).
    vm_compute. reflexivity. }
  split; [exact H'|]. split; [vm_compute; reflexivity|].
  apply (proj2 (fetch_answers (constructor Options.empty)
                  (mkRequest "/logs" [("limit", "99999999999999999999999")])
                  one_row eq_refl H' eq_refl)).
  vm_compute. reflexivity.
Defined.

Lemma malformed_pagination_is_ignored_abc :
  let sp := [("limit", "abc"); ("level", "log")] in
  parseInt "abc" = NaN /\ get "limit" sp = Some "abc"
  /\ buildQueryFromParams (params_of sp)
     = buildQueryFromParams (with_limit None (params_of sp)).
Proof.
  cbn zeta. split; [reflexivity|]. split; [reflexivity|].
  apply (proj1 (malformed_pagination_is_ignored [("limit", "abc"); ("level", "log")]
                  "abc" eq_refl)).
  reflexivity.
Defined.

Lemma writeToFile_keeps_other_files_read_only :
  let entry := mkLogEntry "1/1/2024, 12:00:00 PM" "LOG" "a" in
  "other.txt" <> getFullFilePath csv_logger
  /\ files (world_of (writeToFile csv_logger entry world_with_object)) !! "other.txt"
     = files world_with_object !! "other.txt".
Proof.
  cbn zeta.
  assert (H : "other.txt" <> getFullFilePath csv_logger) by (intros H; discriminate H).
  split; [exact H|].
  apply (proj2 (writeToFile_keeps_other_files csv_logger
                  (mkLogEntry "1/1/2024, 12:00:00 PM" "LOG" "a") world_with_object
                  "other.txt") H).
Defined.

Lemma writeToFile_json_keeps_a_broken_file_object :
  let entry := mkLogEntry "1/1/2024, 12:00:00 PM" "LOG" "a" in
  fileFormat json_logger = JSON /\ writable json_logger world_with_object
  /\ truthy (content_of world_with_object (getFullFilePath json_logger)) = true
  /\ utf8_text (content_of world_with_object (getFullFilePath json_logger)) = true
  /\ JSON_parse (content_of world_with_object (getFullFilePath json_logger))
     = Some (JObject [])
  /\ writeToFile json_logger entry world_with_object
     = Ok tt (with_console (failure_report TypeError) world_with_object).
Proof.
  cbn zeta.
  assert (Hwr : writable json_logger world_with_object) by writable_here.
  split; [reflexivity|]. split; [exact Hwr|]. split; [reflexivity|].
  split; [reflexivity|]. split; [reflexivity|].
  apply (proj2 (writeToFile_json_keeps_a_broken_file json_logger
                  (mkLogEntry "1/1/2024, 12:00:00 PM" "LOG" "a") world_with_object
                  eq_refl Hwr eq_refl eq_refl) (JObject []) eq_refl).
  intros items Hitems. discriminate Hitems.
Defined.

Local Ltac creatable_here :=
  unfold creatable; cbn zeta;
  split; [holds_now|]; split; [holds_now|]; split; [holds_now|];
  split; [holds_now|]; split; holds_now.

Lemma writeToFile_makes_the_directory_fresh :
  let entry := mkLogEntry "1/1/2024, 12:00:00 PM" "ERROR" "a" in
  creatable Index.csvLogger fresh_world
  /\ writeToFile Index.csvLogger entry fresh_world
     = writeToFile Index.csvLogger entry (made_directory Index.csvLogger fresh_world).
Proof.
  cbn zeta.
  assert (H : creatable Index.csvLogger fresh_world) by creatable_here.
  split; [exact H|].
  apply (writeToFile_makes_the_directory Index.csvLogger _ fresh_world H).
Defined.

Lemma writeToFile_reports_a_file_in_the_way_logs :
  let entry := mkLogEntry "1/1/2024, 12:00:00 PM" "ERROR" "a" in
  is_Some (files world_with_file_logs !! dirname (getFullFilePath Index.csvLogger))
  /\ (dirname (getFullFilePath Index.csvLogger) ∉ dirs world_with_file_logs)
  /\ exists e,
       writeToFile Index.csvLogger entry world_with_file_logs
       = Ok tt (with_console (failure_report e) world_with_file_logs).
Proof.
  cbn zeta.
  assert (H1 : is_Some (files world_with_file_logs
                          !! dirname (getFullFilePath Index.csvLogger)))
    by (exists "x"; vm_compute; reflexivity).
  assert (H2 : dirname (getFullFilePath Index.csvLogger) ∉ dirs world_with_file_logs)
    by (vm_compute; intros H; discriminate H).
  split; [exact H1|]. split; [exact H2|].
  apply (writeToFile_reports_a_file_in_the_way Index.csvLogger _ world_with_file_logs H1 H2).
Defined.

Lemma run_calls_stores_every_call_read_only :
  db_fault (faults read_only) = false
  /\ exists w' rows,
       run_calls host_2024 csv_logger [(CallLog, "a"); (CallError, "b")] read_only = Ok tt w'
       /\ logs w' = logs read_only ++ rows
       /\ map (fun r => (row_level r, row_message r)) rows = [("log", "a"); ("error", "b")]
       /\ map row_id rows = [1; 2].
Proof.
  split; [reflexivity|].
  apply (run_calls_stores_every_call host_2024 csv_logger
           [(CallLog, "a"); (CallError, "b")] read_only eq_refl).
Defined.


Lemma text_file_is_appended_to_fresh :
  let old := "earlier line" +:+ nl in
  let w := mkWorld {["t.txt" := old]} {["."]} [] [] 1 [] 0 no_faults in
  fileFormat text_logger = TEXT /\ logToFile text_logger = true
  /\ writable text_logger w /\ db_fault (faults w) = false
  /\ utf8_text (content_of w (getFullFilePath text_logger)) = true
  /\ exists w',
       run_calls host_2024 text_logger [(CallInfo, "a"); (CallError, "b")] w = Ok tt w'
       /\ content_of w' "t.txt"
          = "earlier line" +:+ nl
              +:+ "[1/1/2024, 12:00:00 PM] [INFO] a" +:+ nl
              +:+ "[1/1/2024, 12:00:01 PM] [ERROR] b" +:+ nl.
Proof.
  cbn zeta.
  set (w := mkWorld {["t.txt" := "earlier line" +:+ nl]} {["."]} [] [] 1 [] 0 no_faults).
  assert (Hwr : writable text_logger w) by writable_here.
  split; [reflexivity|]. split; [reflexivity|]. split; [exact Hwr|]. split; [reflexivity|].
  split; [vm_compute; reflexivity|].
  destruct (text_file_is_appended_to host_2024 text_logger [(CallInfo, "a"); (CallError, "b")]
              w eq_refl eq_refl Hwr eq_refl eq_refl)
    as (w' & entries & Hrun & -> & _ & Hcontent).
  exists w'. split; [exact Hrun|].
  change (getFullFilePath text_logger) with "t.txt" in Hcontent.
  rewrite Hcontent. vm_compute. reflexivity.
Defined.

Lemma csv_file_with_content_is_appended_to_headless :
  fileFormat csv_logger = CSV /\ logToFile csv_logger = true
  /\ writable csv_logger world_with_csv /\ db_fault (faults world_with_csv) = false
  /\ truthy (content_of world_with_csv (getFullFilePath csv_logger)) = true
  /\ utf8_text (content_of world_with_csv (getFullFilePath csv_logger)) = true
  /\ exists w',
       run_calls host_2024 csv_logger [(CallLog, "a")] world_with_csv = Ok tt w'
       /\ content_of w' "t.csv"
          = "x,y,z" +:+ nl +:+ "1/1/2024, 12:00:00 PM,LOG,a" +:+ nl.
Proof.
  assert (Hwr : writable csv_logger world_with_csv) by writable_here.
  split; [reflexivity|]. split; [reflexivity|]. split; [exact Hwr|].
  split; [reflexivity|]. split; [reflexivity|]. split; [vm_compute; reflexivity|].
  destruct (csv_file_with_content_is_appended_to host_2024 csv_logger [(CallLog, "a")]
              world_with_csv eq_refl eq_refl Hwr eq_refl eq_refl eq_refl)
    as (w' & entries & Hrun & -> & _ & Hcontent).
  exists w'. split; [exact Hrun|].
  change (getFullFilePath csv_logger) with "t.csv" in Hcontent.
  rewrite Hcontent. vm_compute. reflexivity.
Defined.

Lemma console_is_on_unless_turned_off_empty :
  db_fault (faults fresh_world) = false
  /\ exists w' report,
       facade host_2024 (constructor Options.empty) CallInfo "a" fresh_world = Ok tt w'
       /\ (report = [] \/ exists e, report = [failure_report e])
       /\ console w'
          = console fresh_world ++ [console_line host_2024 CallInfo "a" fresh_world] ++ report.
Proof.
  split; [reflexivity|].
  apply (console_is_on_unless_turned_off host_2024 Options.empty CallInfo "a" fresh_world
           eq_refl).
Defined.


Lemma run_calls_keeps_other_files_read_only :
  "other.txt" <> getFullFilePath csv_logger
  /\ of_database "other.txt" = false
  /\ files (world_of (run_calls host_2024 csv_logger [(CallLog, "a")] world_with_object))
       !! "other.txt"
     = files world_with_object !! "other.txt".
Proof.
  assert (H : "other.txt" <> getFullFilePath csv_logger) by (intros H; discriminate H).
  split; [exact H|]. split; [reflexivity|].
  apply (proj2 (run_calls_keeps_other_files host_2024 csv_logger [(CallLog, "a")]
                  world_with_object "other.txt") H eq_refl).
Defined.

Lemma interval_firings_three :
  writable Index.textLogger world_with_logs /\ db_fault (faults world_with_logs) = false
  /\ utf8_text (content_of world_with_logs "logs/text-logs.txt") = true
  /\ exists w' rows,
       Index.intervals host_2024 3 world_with_logs = Ok tt w'
       /\ content_of w' "logs/text-logs.txt"
          = "[1/1/2024, 12:00:00 PM] [LOG] This is a text log" +:+ nl
              +:+ "[1/1/2024, 12:00:02 PM] [LOG] This is a text log" +:+ nl
              +:+ "[1/1/2024, 12:00:03 PM] [LOG] This is a text log" +:+ nl
       /\ logs w' = logs world_with_logs ++ rows
       /\ map (fun r => (row_level r, row_message r)) rows
          = repeat ("log", "This is a text log") 3.
Proof.
  assert (Hwr : writable Index.textLogger world_with_logs) by writable_here.
  split; [exact Hwr|]. split; [reflexivity|]. split; [reflexivity|].
  destruct (interval_firings host_2024 3 world_with_logs Hwr eq_refl eq_refl)
    as (w' & rows & Hrun & Hcontent & Hlogs & Hshape & _).
  exists w', rows. split; [exact Hrun|].
  split; [rewrite Hcontent; vm_compute; reflexivity|].
  split; [exact Hlogs | exact Hshape].
Defined.

Lemma pages_tile_the_result_one_row :
  let p := Params.mkLogQueryParams None None None None None (Some "ASC") in
  valid_order p /\ db_fault (faults one_row) = false /\ 0 < 2 /\ 0 <= 1
  /\ 1 + 2 + 2 < 2 ^ 63
  /\ exists first second both,
       run_query (with_limit (Some (Num 2)) (with_offset (Some (Num 1)) p)) one_row
       = Ok first one_row
       /\ run_query (with_limit (Some (Num 2)) (with_offset (Some (Num (1 + 2))) p)) one_row
          = Ok second one_row
       /\ run_query (with_limit (Some (Num (2 + 2))) (with_offset (Some (Num 1)) p)) one_row
          = Ok both one_row
       /\ first ++ second = both.
Proof.
  cbn zeta.
  assert (H : valid_order (Params.mkLogQueryParams None None None None None (Some "ASC")))
    by (right; left; reflexivity).
  split; [exact H|]. split; [reflexivity|]. split; [reflexivity|].
  split; [intros Hc; discriminate Hc|]. split; [reflexivity|].
  apply (pages_tile_the_result _ one_row 2 1 H eq_refl eq_refl).
  - intros Hc; discriminate Hc.
  - reflexivity.
Defined.

Lemma logged_row_is_found_fresh :
  let p := Params.mkLogQueryParams None None (Some "error") None None None in
  db_fault (faults fresh_world) = false /\ valid_order p
  /\ exists w' before after,
       facade host_2024 console_logger CallError "a" fresh_world = Ok tt w'
       /\ run_query (unpaginated p) fresh_world = Ok before fresh_world
       /\ run_query (unpaginated p) w' = Ok after w'
       /\ Permutation after
            (if satisfies p (stored_row host_2024 CallError "a" fresh_world)
             then stored_row host_2024 CallError "a" fresh_world :: before
             else before).
Proof.
  cbn zeta.
  assert (H : valid_order (Params.mkLogQueryParams None None (Some "error") None None None))
    by (left; reflexivity).
  split; [reflexivity|]. split; [exact H|].
  apply (logged_row_is_found host_2024 console_logger CallError "a" fresh_world _ eq_refl H).
Defined.

End MoreInstances.
